(** * note-api: the backend selector and the request handlers of [main.py]

    A shallow embedding of [src/note_api/main.py].  The module keeps one
    global, [my_backend], that [get_backend] fills on first use; every
    handler receives the object that global points to and calls its
    [keys]/[get]/[set] methods.  Python objects are shared by reference, so
    the program state is a heap of backend objects plus the global holding a
    location; handlers mutate the object in the heap.

    [backends.py] and [model.py] are not among the sources: the note model,
    the [Backend] interface and its three variants are modelled from the
    specification and marked as such. *)

From stdpp Require Import base option list strings gmap fin_maps.
From Stdlib Require Import Lia.

Open Scope string_scope.
Open Scope list_scope.
Open Scope nat_scope.

(* ===================================================================== *)
(** * The note model (model.py)                                            *)
(* ===================================================================== *)

Module Note.
(** Modelled from the spec: [model.py] is missing.  A Note has an
    identifier, a title and a content, all strings. *)
Record t := mk { id : string; title : string; content : string }.
End Note.

Module CreateNoteRequest.
(** Modelled from the spec: [model.py] is missing.  The request carries a
    title and a content and no identifier. *)
Record t := mk { title : string; content : string }.
End CreateNoteRequest.

Module Payload.
(** Modelled from the spec: the wire payload of the non-memory backends is
    a structured record with the fields title and content; the identifier
    is the storage key (for the object store: the object name). *)
Record t := mk { title : string; content : string }.

Definition serialize (request : CreateNoteRequest.t) : t :=
  mk (CreateNoteRequest.title request) (CreateNoteRequest.content request).

Definition deserialize (note_id : string) (p : t) : Note.t :=
  Note.mk note_id (title p) (content p).
End Payload.

(* ===================================================================== *)
(** * Failures and results                                                 *)
(* ===================================================================== *)

(** Modelled from the spec: the error taxonomy of the backends. *)
Inductive BackendError := NotFound | BackendUnavailable.

(** A Python call either returns a value or raises. *)
Inductive Result (A : Type) :=
  | Ok (a : A)
  | Raise (e : BackendError).
Arguments Ok {A} a.
Arguments Raise {A} e.

Definition is_Ok {A} (r : Result A) : bool :=
  match r with Ok _ => true | Raise _ => false end.

(* ===================================================================== *)
(** * The Backend interface and its variants (backends.py)                 *)
(* ===================================================================== *)

(** Modelled from the spec: [backends.py] is missing.  The capability set
    {get, set, keys}.  [get] and [keys] only read; [set] returns the object
    after the write, and leaves it as it was when it raises (no partial
    failure). *)
Class Backend (B : Type) := {
  keys : B → Result (list string);
  get : B → string → Result Note.t;
  set : B → string → CreateNoteRequest.t → Result B;
}.

Module MemoryBackend.
(** Modelled from the spec: a process-local mapping from key to Note. *)
Record t := mk { storage : gmap string Note.t }.

Definition init : t := mk ∅.

#[global] Instance backend : Backend t := {|
  keys self := Ok (map_to_list (storage self)).*1;
  get self note_id :=
    match storage self !! note_id with
    | Some note => Ok note
    | None => Raise NotFound
    end;
  set self note_id request :=
    Ok (mk (<[note_id := Note.mk note_id (CreateNoteRequest.title request)
                                 (CreateNoteRequest.content request)]>
              (storage self)));
|}.
End MemoryBackend.

Module Service.
(** Modelled from the spec: a network store as the client sees it.  A call
    errors (BackendUnavailable) when the service is not reachable;
    otherwise it reads or writes the entries kept under their keys.
    Whether the service is reachable is fixed for the life of the object,
    and entries do not expire. *)
Record t := mk { reachable : bool; entries : gmap string Payload.t }.

Definition scan (srv : t) : Result (list string) :=
  if reachable srv then Ok (map_to_list (entries srv)).*1
  else Raise BackendUnavailable.

Definition read (srv : t) (key : string) : Result Note.t :=
  if reachable srv then
    match entries srv !! key with
    | Some p => Ok (Payload.deserialize key p)
    | None => Raise NotFound
    end
  else Raise BackendUnavailable.

Definition write (srv : t) (key : string) (request : CreateNoteRequest.t)
  : Result t :=
  if reachable srv then
    Ok (mk (reachable srv)
          (<[key := Payload.serialize request]> (entries srv)))
  else Raise BackendUnavailable.
End Service.

Module RedisBackend.
(** Modelled from the spec: the remote-cache variant; the connection is set
    up once, at construction, and reused. *)
Record t := mk { redis : Service.t }.

Definition init (server : Service.t) : t := mk server.

#[global] Instance backend : Backend t := {|
  keys self := Service.scan (redis self);
  get self note_id := Service.read (redis self) note_id;
  set self note_id request :=
    match Service.write (redis self) note_id request with
    | Ok srv => Ok (mk srv)
    | Raise e => Raise e
    end;
|}.
End RedisBackend.

Module GCSBackend.
(** Modelled from the spec: the object-store variant, one object per note,
    named by the identifier; the bucket is resolved once, at
    construction. *)
Record t := mk { bucket : Service.t }.

Definition init (container : Service.t) : t := mk container.

#[global] Instance backend : Backend t := {|
  keys self := Service.scan (bucket self);
  get self note_id := Service.read (bucket self) note_id;
  set self note_id request :=
    match Service.write (bucket self) note_id request with
    | Ok srv => Ok (mk srv)
    | Raise e => Raise e
    end;
|}.
End GCSBackend.

(** The objects [get_backend] can build: a closed union of the three
    classes imported from [backends.py]; method calls dispatch on the
    class of the object. *)
Inductive backend :=
  | Memory (m : MemoryBackend.t)
  | Redis (r : RedisBackend.t)
  | GCS (g : GCSBackend.t).

#[global] Instance backend_dispatch : Backend backend := {|
  keys self :=
    match self with
    | Memory m => keys m
    | Redis r => keys r
    | GCS g => keys g
    end;
  get self note_id :=
    match self with
    | Memory m => get m note_id
    | Redis r => get r note_id
    | GCS g => get g note_id
    end;
  set self note_id request :=
    match self with
    | Memory m => match set m note_id request with
                  | Ok m' => Ok (Memory m') | Raise e => Raise e end
    | Redis r => match set r note_id request with
                 | Ok r' => Ok (Redis r') | Raise e => Raise e end
    | GCS g => match set g note_id request with
               | Ok g' => Ok (GCS g') | Raise e => Raise e end
    end;
|}.

Inductive BackendKind := KMemory | KRedis | KGCS.

Definition kind_of (b : backend) : BackendKind :=
  match b with Memory _ => KMemory | Redis _ => KRedis | GCS _ => KGCS end.

(** The service behind the object answers its calls: always for the
    in-process mapping, when reachable for the two network variants. *)
Definition available (b : backend) : bool :=
  match b with
  | Memory _ => true
  | Redis r => Service.reachable (RedisBackend.redis r)
  | GCS g => Service.reachable (GCSBackend.bucket g)
  end.

(** No note is stored. *)
Definition empty_store (b : backend) : Prop :=
  match b with
  | Memory m => MemoryBackend.storage m = ∅
  | Redis r => Service.entries (RedisBackend.redis r) = ∅
  | GCS g => Service.entries (GCSBackend.bucket g) = ∅
  end.

(* ===================================================================== *)
(** * What a run of the program does, in order                             *)
(* ===================================================================== *)

Definition loc := nat.

(** The observable actions of [main.py]: reads of the process environment,
    lines printed, objects built, the spans the handlers open and their
    attributes, and
    the method calls made on the backend object. *)
Inductive event :=
  | EGetenv (key default : string)
  | EPrint (line : string)
  | EConstruct (kind : BackendKind) (l : loc)
  | ESpan (name : string)
  | ESpanAttr (key value : string)
  | EKeys
  | EGet (note_id : string)
  | ESet (note_id : string) (request : CreateNoteRequest.t).

Definition is_getenv (e : event) : bool :=
  match e with EGetenv _ _ => true | _ => false end.

Definition is_call (e : event) : bool :=
  match e with EKeys | EGet _ | ESet _ _ => true | _ => false end.

(* ===================================================================== *)
(** * Handler bodies (main.py, lines 49-88)                                *)
(* ===================================================================== *)

(** A handler body runs against the backend object it was given: it may
    change the object, it appends to the trace, and it returns or raises.
    Nothing in [main.py] catches an exception, so the first [Raise] ends
    the body. *)
Definition Handler (B A : Type) : Type :=
  B * list event → Result A * (B * list event).

Definition ret {B A} (a : A) : Handler B A := λ σ, (Ok a, σ).

Definition bind {B A C} (m : Handler B A) (k : A → Handler B C)
  : Handler B C :=
  λ σ, match m σ with
       | (Ok a, σ') => k a σ'
       | (Raise e, σ') => (Raise e, σ')
       end.

Notation "'let!' x ← m ; k" := (bind m (λ x, k))
  (at level 10, x name, m at level 100, k at level 200, only parsing).
Notation "'do!' m ; k" := (bind m (λ _, k))
  (at level 10, m at level 100, k at level 200, only parsing).

Definition emit {B} (e : event) : Handler B unit :=
  λ '(b, t), (Ok tt, (b, t ++ [e])).

Section Handlers.
Context {B : Type} `{!Backend B}.

(** [backend.keys()] *)
Definition call_keys : Handler B (list string) :=
  λ '(b, t), (keys b, (b, t ++ [EKeys])).

(** [backend.get(note_id)] *)
Definition call_get (note_id : string) : Handler B Note.t :=
  λ '(b, t), (get b note_id, (b, t ++ [EGet note_id])).

(** [backend.set(note_id, request)] *)
Definition call_set (note_id : string) (request : CreateNoteRequest.t)
  : Handler B unit :=
  λ '(b, t),
    match set b note_id request with
    | Ok b' => (Ok tt, (b', t ++ [ESet note_id request]))
    | Raise e => (Raise e, (b, t ++ [ESet note_id request]))
    end.

(** The notes that [get] returns for the keys, one by one. *)
Definition fetched (b : B) (ks : list string) (ns : list Note.t) : Prop :=
  Forall2 (λ k n, get b k = Ok n) ks ns.

(** The [for key in keys: Notes.append(backend.get(key))] loop. *)
Fixpoint for_key_in (keys : list string) (Notes : list Note.t)
  : Handler B (list Note.t) :=
  match keys with
  | [] => ret Notes
  | key :: rest =>
      let! note ← call_get key;
      for_key_in rest (Notes ++ [note])
  end.

Definition get_notes : Handler B (list Note.t) :=
  do! emit (ESpan "get_notes");
  let! keys ← call_keys;
  for_key_in keys [].

Definition get_note (note_id : string) : Handler B Note.t :=
  do! emit (ESpan "get_note");
  call_get note_id.

Definition update_note (note_id : string) (request : CreateNoteRequest.t)
  : Handler B unit :=
  do! emit (ESpan "update_note");
  call_set note_id request.

(** [uuid4_str] is the outcome of [str(uuid4())]: the random draw is an
    input of the model. *)
Definition create_note (uuid4_str : string) (request : CreateNoteRequest.t)
  : Handler B string :=
  do! emit (ESpan "create_note");
  let note_id := uuid4_str in
  do! call_set note_id request;
  do! emit (ESpanAttr "note_id" note_id);
  do! emit (ESpanAttr "request" (CreateNoteRequest.title request));
  ret note_id.
End Handlers.

(* ===================================================================== *)
(** * The process: environment, heap and the global (main.py, 32-46)       *)
(* ===================================================================== *)

(** What lies outside the process: the environment variables, and the two
    network services a constructor connects to. *)
Record world := World {
  environ : gmap string string;
  redis_server : Service.t;
  gcs_bucket : Service.t;
}.

(** [os.getenv(key, default)] *)
Definition getenv (w : world) (key default : string) : string :=
  match environ w !! key with
  | Some value => value
  | None => default
  end.

(** The module state: the global [my_backend] (None until the first
    access), the backend objects built so far, and the trace. *)
Record state := State {
  my_backend : option loc;
  heap : list backend;
  trace : list event;
}.

(** [my_backend: Optional[Backend] = None] *)
Definition initial : state := State None [] [].

Definition log (e : event) (s : state) : state :=
  State (my_backend s) (heap s) (trace s ++ [e]).

(** A constructor call: the new object gets the next location. *)
Definition new (b : backend) (s : state) : loc * state :=
  let l := length (heap s) in
  (l, State (my_backend s) (heap s ++ [b])
            (trace s ++ [EConstruct (kind_of b) l])).

(** [my_backend = ...] *)
Definition store_global (l : loc) (s : state) : state :=
  State (Some l) (heap s) (trace s).

(** Number of backend objects built so far. *)
Definition constructed (s : state) : nat := length (heap s).

(** The [if]/[elif]/[else] of lines 40-45: which constructor is called. *)
Definition construct (w : world) (backend_type : string) : backend :=
  if String.eqb backend_type "redis" then
    Redis (RedisBackend.init (redis_server w))
  else if String.eqb backend_type "gcs" then
    GCS (GCSBackend.init (gcs_bucket w))
  else
    Memory MemoryBackend.init.

Definition get_backend (w : world) (s : state) : option loc * state :=
  let s' :=
    match my_backend s with
    | None =>
        let backend_type := getenv w "BACKEND" "memory" in
        let s := log (EGetenv "BACKEND" "memory") s in
        let s := log (EPrint backend_type) s in
        let '(l, s) := new (construct w backend_type) s in
        store_global l s
    | Some _ => s
    end in
  (my_backend s', s').

(* ===================================================================== *)
(** * Requests (the routes of main.py)                                     *)
(* ===================================================================== *)

Inductive request :=
  | GET_root
  | GET_notes
  | GET_note (note_id : string)
  | PUT_note (note_id : string) (body : CreateNoteRequest.t)
  | POST_notes (uuid4_str : string) (body : CreateNoteRequest.t).

Inductive response :=
  | Redirect (url : string)
  | NoteList (notes : list Note.t)
  | OneNote (note : Note.t)
  | Empty
  | NewId (note_id : string)
  | Failed (e : BackendError)
  | NoBackend.

(** [redirect_to_notes] takes no backend. *)
Definition redirect_to_notes (s : state) : response * state :=
  (Redirect "/notes", log (ESpan "redirect_to_notes") s).

(** [Depends(get_backend)]: the framework calls [get_backend] and passes
    the object it returns to the handler body; what the body does to the
    object is done to the object in the heap. *)
Definition depends {A} (w : world) (body : Handler backend A)
    (reply : A → response) (s : state) : response * state :=
  let '(r, s1) := get_backend w s in
  match r with
  | Some l =>
      match heap s1 !! l with
      | Some b =>
          let '(res, (b', t')) := body (b, trace s1) in
          (match res with Ok a => reply a | Raise e => Failed e end,
           State (my_backend s1) (<[l := b']> (heap s1)) t')
      | None => (NoBackend, s1)
      end
  | None => (NoBackend, s1)
  end.

Definition handle (w : world) (req : request) (s : state)
  : response * state :=
  match req with
  | GET_root => redirect_to_notes s
  | GET_notes => depends w get_notes NoteList s
  | GET_note note_id => depends w (get_note note_id) OneNote s
  | PUT_note note_id body =>
      depends w (update_note note_id body) (λ _, Empty) s
  | POST_notes uuid4_str body =>
      depends w (create_note uuid4_str body) NewId s
  end.

(** Requests served one after another, each under the environment of its
    moment. *)
Fixpoint serve (reqs : list (world * request)) (s : state)
  : list response * state :=
  match reqs with
  | [] => ([], s)
  | (w, req) :: rest =>
      let '(resp, s1) := handle w req s in
      let '(resps, s2) := serve rest s1 in
      (resp :: resps, s2)
  end.

(* ===================================================================== *)
(** * Callers of [get_backend] running concurrently                        *)
(* ===================================================================== *)

(** Where a caller stands inside [get_backend].  Each step touches the
    shared global at most once, so every interleaving of these steps is an
    interleaving of the interpreter's. *)
Inductive pc :=
  | AtTest                                (* line 37: my_backend is None? *)
  | AtGetenv                              (* line 38 *)
  | AtPrint (backend_type : string)       (* line 39 *)
  | AtConstruct (backend_type : string)   (* lines 40-45, the call *)
  | AtStore (l : loc)                     (* lines 41/43/45, the store *)
  | AtReturn                              (* line 46 *)
  | Returned (r : option loc).

Definition step_thread (w : world) (p : pc) (s : state) : pc * state :=
  match p with
  | AtTest =>
      match my_backend s with
      | None => (AtGetenv, s)
      | Some _ => (AtReturn, s)
      end
  | AtGetenv =>
      (AtPrint (getenv w "BACKEND" "memory"),
       log (EGetenv "BACKEND" "memory") s)
  | AtPrint backend_type =>
      (AtConstruct backend_type, log (EPrint backend_type) s)
  | AtConstruct backend_type =>
      let '(l, s') := new (construct w backend_type) s in (AtStore l, s')
  | AtStore l => (AtReturn, store_global l s)
  | AtReturn => (Returned (my_backend s), s)
  | Returned r => (Returned r, s)
  end.

Definition config : Type := list pc * state.

(** Caller [i] takes its next step. *)
Definition step (w : world) (c : config) (i : nat) : config :=
  match c.1 !! i with
  | Some p =>
      let '(p', s') := step_thread w p c.2 in (<[i := p']> c.1, s')
  | None => c
  end.

(** A schedule names the caller that moves at each step. *)
Definition run (w : world) (schedule : list nat) (c : config) : config :=
  foldl (step w) c schedule.

(** [n] callers about to make the very first access. *)
Definition first_access (n : nat) : config := (replicate n AtTest, initial).

Definition has_returned (p : pc) : bool :=
  match p with Returned _ => true | _ => false end.

Definition all_returned (c : config) : bool := forallb has_returned c.1.

(** 1 while the caller may still call a constructor, 0 once it has made
    the call or has found the global set. *)
Definition may_construct (p : pc) : nat :=
  match p with
  | AtTest | AtGetenv | AtPrint _ | AtConstruct _ => 1
  | AtStore _ | AtReturn | Returned _ => 0
  end.

(** The callers that may still call a constructor. *)
Definition pending (ps : list pc) : nat := sum_list (may_construct <$> ps).

(** One caller taking [k] steps with nobody else moving. *)
Fixpoint alone (w : world) (k : nat) (p : pc) (s : state) : pc * state :=
  match k with
  | 0 => (p, s)
  | S k => let '(p', s') := step_thread w p s in alone w k p' s'
  end.

(** As long as nothing has been constructed, the global is unset and no
    caller is past the constructor call. *)
Definition quiet (c : config) : Prop :=
  constructed c.2 = 0 →
  my_backend c.2 = None ∧ Forall (λ p, may_construct p = 1) c.1.

(** The callers run one after another: caller 0 from test to return, then
    caller 1, and so on. *)
Definition one_by_one (n : nat) : list nat :=
  flat_map (λ i, replicate 6 i) (seq 0 n).

(** The variant a configuration value names, in the words of the
    specification: memory, remote-cache, object-store. *)
Definition named_by_spec (value : string) : option BackendKind :=
  if String.eqb value "memory" then Some KMemory
  else if String.eqb value "remote-cache" then Some KRedis
  else if String.eqb value "object-store" then Some KGCS
  else None.

(** The variant [get_backend] leaves behind the reference it returns. *)
Definition selected (w : world) (s : state) : option BackendKind :=
  let '(r, s') := get_backend w s in
  l ← r; kind_of <$> heap s' !! l.

(** The reads of the process environment recorded in a trace. *)
Definition getenv_reads (t : list event) : list event :=
  List.filter is_getenv t.

(** The backend method calls recorded in a trace. *)
Definition calls (t : list event) : list event := List.filter is_call t.

(** A handler body reads no environment variable. *)
Definition reads_no_env {B A} (h : Handler B A) : Prop :=
  ∀ b t, getenv_reads (h (b, t)).2.2 = getenv_reads t.

(** Every request of a list under one and the same environment. *)
Definition under (w : world) (reqs : list request) : list (world * request) :=
  pair w <$> reqs.

(** A history of [set] calls applied to a backend; a call that raises
    leaves the object as it was. *)
Fixpoint set_all (history : list (string * CreateNoteRequest.t))
    (b : backend) : backend :=
  match history with
  | [] => b
  | (note_id, request) :: rest =>
      match set b note_id request with
      | Ok b' => set_all rest b'
      | Raise _ => set_all rest b
      end
  end.

(* ===================================================================== *)
(** * Vocabulary for the properties of whole runs                          *)
(* ===================================================================== *)

(** The global, when set, points at an object of the heap. *)
Definition wf (s : state) : Prop :=
  match my_backend s with
  | Some l => l < length (heap s)
  | None => True
  end.

(** The routes declared with [Depends(get_backend)]: all but GET /. *)
Definition uses_backend (req : request) : bool :=
  match req with GET_root => false | _ => true end.

(** The environment in force at the first request that uses the backend. *)
Fixpoint first_use (reqs : list (world * request)) : option world :=
  match reqs with
  | [] => None
  | (w, req) :: rest => if uses_backend req then Some w else first_use rest
  end.

(** What the selector records: the read of the environment, the printed
    line, the construction. *)
Definition is_selector (e : event) : bool :=
  match e with
  | EGetenv _ _ | EPrint _ | EConstruct _ _ => true
  | _ => false
  end.

Definition selector_events (t : list event) : list event :=
  List.filter is_selector t.

Definition is_span (e : event) : bool :=
  match e with ESpan _ => true | _ => false end.

(** The spans that the handlers of [main.py] open themselves, with
    [big_pipe_tracer.start_as_current_span].  The spans that the
    instrumentation of the framework (line 91) adds around each request are
    made outside [main.py] and are not in the trace. *)
Definition handler_spans (t : list event) : list event :=
  List.filter is_span t.

(** What a handler records after it has opened its span: span attributes
    and method calls. *)
Definition is_body_event (e : event) : bool :=
  match e with
  | ESpanAttr _ _ | EKeys | EGet _ | ESet _ _ => true
  | _ => false
  end.

(** The handler body appends body events only. *)
Definition body_only {B A} (h : Handler B A) : Prop :=
  ∀ b t, ∃ new,
    (h (b, t)).2.2 = t ++ new ∧ Forall (λ e, is_body_event e = true) new.

(** The handler opens the span [name], then appends body events only. *)
Definition spanned {B A} (name : string) (h : Handler B A) : Prop :=
  ∀ b t, ∃ new,
    (h (b, t)).2.2 = t ++ ESpan name :: new
    ∧ Forall (λ e, is_body_event e = true) new.

(** The handler leaves the backend object as it found it. *)
Definition read_only {B A} (h : Handler B A) : Prop :=
  ∀ b t, (h (b, t)).2.1 = b.

(** The key and the body that a write route passes to [set]. *)
Definition target (req : request) : option (string * CreateNoteRequest.t) :=
  match req with
  | PUT_note note_id body => Some (note_id, body)
  | POST_notes uuid4_str body => Some (uuid4_str, body)
  | _ => None
  end.

(** The request writes under the key [note_id]. *)
Definition writes (note_id : string) (req : request) : bool :=
  match target req with
  | Some (key, _) => String.eqb key note_id
  | None => false
  end.

(** The response of a handler that returned. *)
Definition succeeded (resp : response) : bool :=
  match resp with Failed _ | NoBackend => false | _ => true end.

(** The backend the global points at returns [note] for [note_id]. *)
Definition stored (s : state) (note_id : string) (note : Note.t) : Prop :=
  ∃ l b, my_backend s = Some l ∧ heap s !! l = Some b
         ∧ get b note_id = Ok note.

(** What a caller inside [get_backend] may rely on: a reference it holds or
    has returned is an object of the heap, and past the store the global
    is set. *)
Definition caller_ok (s : state) (p : pc) : Prop :=
  match p with
  | AtStore l => l < constructed s
  | AtReturn => is_Some (my_backend s)
  | Returned r =>
      is_Some (my_backend s) ∧ ∃ l, r = Some l ∧ l < constructed s
  | _ => True
  end.

(** The global and all callers are in order. *)
Definition callers_ok (c : config) : Prop :=
  wf c.2 ∧ Forall (caller_ok c.2) c.1.

(* ===================================================================== *)
(** * Sample inputs                                                        *)
(* ===================================================================== *)

Definition sample_request : CreateNoteRequest.t :=
  CreateNoteRequest.mk "groceries" "milk, eggs".

Definition other_request : CreateNoteRequest.t :=
  CreateNoteRequest.mk "todo" "water the plants".

(** A service that answers and holds nothing, and one that does not
    answer. *)
Definition empty_service : Service.t := Service.mk true ∅.
Definition unreachable_service : Service.t := Service.mk false ∅.

(** The environment with BACKEND set to [value], or unset. *)
Definition world_with (value : option string) : world :=
  World (match value with
         | Some v => {[ "BACKEND" := v ]}
         | None => ∅
         end) empty_service empty_service.

(** A Redis backend whose server does not answer. *)
Definition unreachable_redis : backend :=
  Redis (RedisBackend.init unreachable_service).

(** A memory backend holding one note under the key "a". *)
Definition memory_with_a : backend :=
  Memory (MemoryBackend.mk {[ "a" := Note.mk "a" "groceries" "milk, eggs" ]}).

Module Stale.
(** A stand-in backend for exercising the handlers: its listing may name
    keys whose notes are gone, as the listing of a cache does once an entry
    has expired. *)
Record t := mk { listed : list string; held : gmap string Note.t }.

#[global] Instance backend : Backend t := {|
  keys self := Ok (listed self);
  get self note_id :=
    match held self !! note_id with
    | Some note => Ok note
    | None => Raise NotFound
    end;
  set self note_id request :=
    Ok (mk (listed self ++ [note_id])
           (<[note_id := Note.mk note_id (CreateNoteRequest.title request)
                                 (CreateNoteRequest.content request)]>
              (held self)));
|}.
End Stale.

(** It lists "a", "b" and "c" and holds a note for "a" only. *)
Definition stale_listing : Stale.t :=
  Stale.mk ["a"; "b"; "c"]
           {[ "a" := Note.mk "a" "groceries" "milk, eggs" ]}.

(** Three callers.  Caller 1 tests the global; then caller 0 makes its
    whole access, from the test to the return. *)
Definition overlap_head : list nat := [1; 0; 0; 0; 0; 0; 0].

(** Caller 1 resumes after its test and finishes; only then does caller 2
    make its whole access. *)
Definition overlap_tail : list nat := [1; 1; 1; 1; 1; 2; 2; 2; 2; 2; 2].

(** Two callers: the second tests the global before the first has stored
    into it. *)
Definition racing_schedule : list nat := [0; 1; 0; 0; 0; 0; 0; 1; 1; 1; 1; 1].

(* ===================================================================== *)
(** * Properties of the backend variants                                   *)
(* ===================================================================== *)

Section BackendFacts.
Implicit Types (b : backend) (note_id : string)
  (request : CreateNoteRequest.t).

Lemma set_available b note_id request :
  available b = true → is_Ok (set b note_id request) = true.
Proof.
  destruct b as [m|[[re en]]|[[re en]]]; simpl; unfold Service.write;
    simpl; intros H; try rewrite H; reflexivity.
Qed.

Lemma set_Ok_available b b' note_id request :
  set b note_id request = Ok b' → available b = true ∧ available b' = true.
Proof.
  destruct b as [m|[[re en]]|[[re en]]]; simpl; unfold Service.write; simpl.
  - intros [= <-]. done.
  - destruct re; [intros [= <-]; done | discriminate].
  - destruct re; [intros [= <-]; done | discriminate].
Qed.

Lemma set_unavailable b note_id request :
  available b = false → set b note_id request = Raise BackendUnavailable.
Proof.
  destruct b as [m|[[re en]]|[[re en]]]; simpl; unfold Service.write;
    simpl; intros H; try discriminate; rewrite H; reflexivity.
Qed.

(** What [get] finds right after a [set] that returned. *)
Lemma get_after_set b b' note_id request :
  set b note_id request = Ok b' →
  get b' note_id =
    Ok (Note.mk note_id (CreateNoteRequest.title request)
                (CreateNoteRequest.content request)).
Proof.
  destruct b as [m|[[re en]]|[[re en]]]; simpl;
    unfold Service.write, Service.read; simpl.
  - intros [= <-]. simpl. by rewrite lookup_insert_eq.
  - destruct re; [|discriminate]. intros [= <-]. simpl.
    by rewrite lookup_insert_eq.
  - destruct re; [|discriminate]. intros [= <-]. simpl.
    by rewrite lookup_insert_eq.
Qed.

(** A [set] on another key does not change what [get] finds. *)
Lemma get_after_other_set b b' note_id other request :
  other ≠ note_id →
  set b other request = Ok b' →
  get b' note_id = get b note_id.
Proof.
  intros Hne.
  destruct b as [m|[[re en]]|[[re en]]]; simpl;
    unfold Service.write, Service.read; simpl.
  - intros [= <-]. simpl. by rewrite lookup_insert_ne.
  - destruct re; [|discriminate]. intros [= <-]. simpl.
    by rewrite lookup_insert_ne.
  - destruct re; [|discriminate]. intros [= <-]. simpl.
    by rewrite lookup_insert_ne.
Qed.

(** A second [set] on the same key leaves the object as if the first had
    never been made. *)
Lemma set_overwrites b b1 note_id request1 request2 :
  set b note_id request1 = Ok b1 →
  set b1 note_id request2 = set b note_id request2.
Proof.
  destruct b as [m|[[re en]]|[[re en]]]; simpl;
    unfold Service.write; simpl.
  - intros [= <-]. simpl. by rewrite insert_insert_eq.
  - destruct re; [|discriminate]. intros [= <-]. simpl.
    by rewrite insert_insert_eq.
  - destruct re; [|discriminate]. intros [= <-]. simpl.
    by rewrite insert_insert_eq.
Qed.

Lemma get_empty b note_id :
  empty_store b → available b = true → get b note_id = Raise NotFound.
Proof.
  destruct b as [[st]|[[re en]]|[[re en]]]; simpl;
    unfold Service.read; simpl.
  - intros -> _. by rewrite lookup_empty.
  - intros -> ->. by rewrite lookup_empty.
  - intros -> ->. by rewrite lookup_empty.
Qed.

(** Every key that [keys] lists has a note: for these three variants the
    notes of the listing can always be fetched. *)
Lemma keys_have_notes b ks :
  keys b = Ok ks → ∀ k, k ∈ ks → ∃ n, get b k = Ok n.
Proof.
  destruct b as [[st]|[[re en]]|[[re en]]]; simpl;
    unfold Service.scan, Service.read; simpl.
  - intros [= <-] k Hk.
    apply list_elem_of_fmap in Hk as ([k' n] & -> & Hk).
    apply elem_of_map_to_list in Hk. simpl. rewrite Hk. eauto.
  - destruct re; [|discriminate]. intros [= <-] k Hk.
    apply list_elem_of_fmap in Hk as ([k' n] & -> & Hk).
    apply elem_of_map_to_list in Hk. simpl. rewrite Hk. eauto.
  - destruct re; [|discriminate]. intros [= <-] k Hk.
    apply list_elem_of_fmap in Hk as ([k' n] & -> & Hk).
    apply elem_of_map_to_list in Hk. simpl. rewrite Hk. eauto.
Qed.

Lemma get_unavailable b note_id :
  available b = false → get b note_id = Raise BackendUnavailable.
Proof.
  destruct b as [m|[[re en]]|[[re en]]]; simpl; unfold Service.read;
    simpl; intros H; try discriminate; rewrite H; reflexivity.
Qed.

Lemma set_all_unavailable history : ∀ b,
  available b = false → set_all history b = b.
Proof.
  induction history as [|[k r] history IH]; intros b Hb; [reflexivity|].
  change (set_all ((k, r) :: history) b)
    with (match set b k r with
          | Ok b' => set_all history b'
          | Raise _ => set_all history b
          end).
  rewrite (set_unavailable b k r Hb). by apply IH.
Qed.

Lemma get_set_all history : ∀ b note_id,
  note_id ∉ history.*1 →
  get (set_all history b) note_id = get b note_id.
Proof.
  induction history as [|[k r] history IH]; intros b note_id Hnotin;
    [reflexivity|].
  rewrite fmap_cons in Hnotin.
  apply not_elem_of_cons in Hnotin as [Hne Hnotin].
  change (set_all ((k, r) :: history) b)
    with (match set b k r with
          | Ok b' => set_all history b'
          | Raise _ => set_all history b
          end).
  destruct (set b k r) as [b'|e] eqn:Hset.
  - rewrite IH by done. eapply get_after_other_set; eauto.
  - by apply IH.
Qed.
End BackendFacts.

(* ===================================================================== *)
(** * Properties of the handler bodies, for any backend                    *)
(* ===================================================================== *)

Section HandlerFacts.
Context {B : Type} `{!Backend B}.
Implicit Types (b : B) (t : list event) (ks : list string)
  (ns : list Note.t).

Lemma for_key_in_returns ks : ∀ ns Notes b t,
  fetched b ks ns →
  for_key_in ks Notes (b, t) = (Ok (Notes ++ ns), (b, t ++ (EGet <$> ks))).
Proof.
  induction ks as [|k ks IH]; intros ns Notes b t Hf.
  - apply Forall2_nil_inv_l in Hf as ->. simpl. unfold ret.
    by rewrite !app_nil_r.
  - apply Forall2_cons_inv_l in Hf as (n & ns' & Hk & Hf & ->).
    cbn [for_key_in]. unfold bind, call_get. rewrite Hk.
    rewrite (IH ns' (Notes ++ [n]) b (t ++ [EGet k]) Hf).
    by rewrite <- !app_assoc.
Qed.

Lemma get_notes_returns b t ks ns :
  keys b = Ok ks →
  fetched b ks ns →
  get_notes (b, t) =
    (Ok ns, (b, t ++ [ESpan "get_notes"; EKeys] ++ (EGet <$> ks))).
Proof.
  intros Hk Hf. unfold get_notes, bind, emit, call_keys. rewrite Hk.
  rewrite (for_key_in_returns ks ns [] b _ Hf). simpl.
  by rewrite <- !app_assoc.
Qed.

Lemma get_notes_keys_raises b t e :
  keys b = Raise e →
  get_notes (b, t) = (Raise e, (b, t ++ [ESpan "get_notes"; EKeys])).
Proof.
  intros Hk. unfold get_notes, bind, emit, call_keys. rewrite Hk.
  by rewrite <- !app_assoc.
Qed.

Lemma fetched_exists b ks :
  (∀ k, k ∈ ks → ∃ n, get b k = Ok n) → ∃ ns, fetched b ks ns.
Proof.
  induction ks as [|k ks IH]; intros Hall.
  - exists []. constructor.
  - destruct (Hall k) as [n Hn]; [by left|].
    destruct IH as [ns Hns]; [intros k' Hk'; apply Hall; by right|].
    exists (n :: ns). by constructor.
Qed.

Lemma update_note_returns b b' t note_id request :
  set b note_id request = Ok b' →
  update_note note_id request (b, t) =
    (Ok tt, (b', t ++ [ESpan "update_note"; ESet note_id request])).
Proof.
  intros Hs. unfold update_note, bind, emit, call_set. rewrite Hs.
  by rewrite <- !app_assoc.
Qed.

Lemma get_note_is_get b t note_id :
  get_note note_id (b, t) =
    (get b note_id, (b, t ++ [ESpan "get_note"; EGet note_id])).
Proof.
  unfold get_note, bind, emit, call_get. by rewrite <- !app_assoc.
Qed.
End HandlerFacts.

(* ===================================================================== *)
(** * Properties of the selector and of the request loop                   *)
(* ===================================================================== *)

Section SelectorFacts.
Implicit Types (w : world) (s : state) (l : loc).

Lemma get_backend_cached w s l :
  my_backend s = Some l → get_backend w s = (Some l, s).
Proof. intros H. unfold get_backend. rewrite H. simpl. by rewrite H. Qed.

Lemma get_backend_first w s :
  my_backend s = None →
  get_backend w s =
    let backend_type := getenv w "BACKEND" "memory" in
    let b := construct w backend_type in
    let l := length (heap s) in
    (Some l,
     State (Some l) (heap s ++ [b])
           (trace s ++ [EGetenv "BACKEND" "memory"; EPrint backend_type;
                        EConstruct (kind_of b) l])).
Proof.
  intros H. unfold get_backend. rewrite H. simpl.
  by rewrite <- !app_assoc.
Qed.

Lemma get_backend_some w s : ∃ l, my_backend (get_backend w s).2 = Some l
                                  ∧ (get_backend w s).1 = Some l.
Proof.
  destruct (my_backend s) as [l|] eqn:H.
  - exists l. by rewrite (get_backend_cached _ _ _ H).
  - rewrite (get_backend_first _ _ H). simpl. eauto.
Qed.

Lemma selected_first w s :
  my_backend s = None →
  selected w s = Some (kind_of (construct w (getenv w "BACKEND" "memory"))).
Proof.
  intros H. unfold selected. rewrite (get_backend_first _ _ H). simpl.
  by rewrite list_lookup_middle.
Qed.

Lemma construct_redis w : kind_of (construct w "redis") = KRedis.
Proof. reflexivity. Qed.

Lemma construct_gcs w : kind_of (construct w "gcs") = KGCS.
Proof. reflexivity. Qed.

Lemma construct_other w backend_type :
  backend_type ≠ "redis" → backend_type ≠ "gcs" →
  construct w backend_type = Memory MemoryBackend.init.
Proof.
  intros H1 H2. unfold construct.
  apply String.eqb_neq in H1, H2. by rewrite H1, H2.
Qed.
End SelectorFacts.

Section TraceFacts.
Context {B : Type} `{!Backend B}.

Lemma reads_no_env_ret {A} (a : A) : reads_no_env (B:=B) (ret a).
Proof. by intros b t. Qed.

Lemma reads_no_env_bind {A C} (m : Handler B A) (k : A → Handler B C) :
  reads_no_env m → (∀ a, reads_no_env (k a)) → reads_no_env (bind m k).
Proof.
  intros Hm Hk b t. unfold bind. specialize (Hm b t).
  destruct (m (b, t)) as [[a|e] [b' t']]; simpl in *.
  - rewrite <- Hm. apply Hk.
  - done.
Qed.

Lemma reads_no_env_emit e :
  is_getenv e = false → reads_no_env (B:=B) (emit e).
Proof.
  intros He b t. unfold emit, getenv_reads. simpl.
  rewrite List.filter_app. simpl. rewrite He. by rewrite app_nil_r.
Qed.

Lemma reads_no_env_call_keys : reads_no_env (B:=B) call_keys.
Proof.
  intros b t. unfold call_keys, getenv_reads. simpl.
  rewrite List.filter_app. simpl. by rewrite app_nil_r.
Qed.

Lemma reads_no_env_call_get note_id : reads_no_env (B:=B) (call_get note_id).
Proof.
  intros b t. unfold call_get, getenv_reads. simpl.
  rewrite List.filter_app. simpl. by rewrite app_nil_r.
Qed.

Lemma reads_no_env_call_set note_id request :
  reads_no_env (B:=B) (call_set note_id request).
Proof.
  intros b t. unfold call_set, getenv_reads.
  destruct (set b note_id request); simpl;
    rewrite List.filter_app; simpl; by rewrite app_nil_r.
Qed.

Lemma reads_no_env_for_key_in ks :
  ∀ Notes, reads_no_env (B:=B) (for_key_in ks Notes).
Proof.
  induction ks as [|k ks IH]; intros Notes; simpl.
  - apply reads_no_env_ret.
  - apply reads_no_env_bind; [apply reads_no_env_call_get | intros; apply IH].
Qed.

Lemma reads_no_env_get_notes : reads_no_env (B:=B) get_notes.
Proof.
  unfold get_notes.
  apply reads_no_env_bind; [by apply reads_no_env_emit | intros _].
  apply reads_no_env_bind; [apply reads_no_env_call_keys | intros ks].
  apply reads_no_env_for_key_in.
Qed.

Lemma reads_no_env_get_note note_id : reads_no_env (B:=B) (get_note note_id).
Proof.
  unfold get_note.
  apply reads_no_env_bind; [by apply reads_no_env_emit | intros _].
  apply reads_no_env_call_get.
Qed.

Lemma reads_no_env_update_note note_id request :
  reads_no_env (B:=B) (update_note note_id request).
Proof.
  unfold update_note.
  apply reads_no_env_bind; [by apply reads_no_env_emit | intros _].
  apply reads_no_env_call_set.
Qed.

Lemma reads_no_env_create_note uuid4_str request :
  reads_no_env (B:=B) (create_note uuid4_str request).
Proof.
  unfold create_note.
  apply reads_no_env_bind; [by apply reads_no_env_emit | intros _].
  apply reads_no_env_bind; [apply reads_no_env_call_set | intros _].
  apply reads_no_env_bind; [by apply reads_no_env_emit | intros _].
  apply reads_no_env_bind; [by apply reads_no_env_emit | intros _].
  apply reads_no_env_ret.
Qed.
End TraceFacts.

Section ServeFacts.
Implicit Types (w : world) (s : state) (l : loc).

Lemma depends_keeps {A} w (body : Handler backend A) reply s l :
  my_backend s = Some l →
  reads_no_env body →
  my_backend (depends w body reply s).2 = Some l
  ∧ getenv_reads (trace (depends w body reply s).2) = getenv_reads (trace s).
Proof.
  intros Hl Hbody. unfold depends.
  rewrite (get_backend_cached w s l Hl).
  destruct (heap s !! l) as [b|]; [|done].
  specialize (Hbody b (trace s)).
  destruct (body (b, trace s)) as [res [b' t']]. simpl in *. done.
Qed.

Lemma handle_keeps w req s l :
  my_backend s = Some l →
  my_backend (handle w req s).2 = Some l
  ∧ getenv_reads (trace (handle w req s).2) = getenv_reads (trace s).
Proof.
  intros Hl. destruct req; simpl.
  - split; [done|]. unfold getenv_reads. rewrite List.filter_app. simpl.
    by rewrite app_nil_r.
  - apply depends_keeps; [done | apply reads_no_env_get_notes].
  - apply depends_keeps; [done | apply reads_no_env_get_note].
  - apply depends_keeps; [done | apply reads_no_env_update_note].
  - apply depends_keeps; [done | apply reads_no_env_create_note].
Qed.

Lemma serve_keeps reqs : ∀ s l,
  my_backend s = Some l →
  my_backend (serve reqs s).2 = Some l
  ∧ getenv_reads (trace (serve reqs s).2) = getenv_reads (trace s).
Proof.
  induction reqs as [|[w req] reqs IH]; intros s l Hl; [done|].
  simpl. destruct (handle_keeps w req s l Hl) as [H1 H2].
  destruct (handle w req s) as [resp s1]. simpl in *.
  destruct (IH s1 l H1) as [H3 H4].
  destruct (serve reqs s1) as [resps s2]. simpl in *.
  split; [done | congruence].
Qed.

Lemma handle_builds_nothing w req s l :
  my_backend s = Some l →
  constructed (handle w req s).2 = constructed s.
Proof.
  intros Hl. destruct req; simpl; [done|..]; unfold depends;
    rewrite (get_backend_cached w s l Hl);
    (destruct (heap s !! l) as [b|]; [|done]);
    match goal with |- context [?body (b, trace s)] =>
      destruct (body (b, trace s)) as [res [b' t']] end;
    unfold constructed; simpl; apply length_insert.
Qed.

Lemma serve_builds_nothing reqs : ∀ s l,
  my_backend s = Some l →
  constructed (serve reqs s).2 = constructed s.
Proof.
  induction reqs as [|[w req] reqs IH]; intros s l Hl; [done|].
  simpl. destruct (handle_keeps w req s l Hl) as [Hk _].
  pose proof (handle_builds_nothing w req s l Hl) as Hc.
  destruct (handle w req s) as [resp s1]. simpl in *.
  specialize (IH s1 l Hk).
  destruct (serve reqs s1) as [resps s2]. simpl in *. congruence.
Qed.

(** The handlers see the environment through [get_backend] only. *)
Lemma handle_same_selection w w' req s :
  get_backend w s = get_backend w' s → handle w req s = handle w' req s.
Proof.
  intros H. destruct req; simpl; unfold depends; by rewrite ?H.
Qed.

Lemma serve_same_selection w w' reqs :
  (∀ s, get_backend w s = get_backend w' s) →
  ∀ s, serve (under w reqs) s = serve (under w' reqs) s.
Proof.
  intros H. induction reqs as [|req reqs IH]; intros s; [done|].
  simpl. rewrite (handle_same_selection w w' req s (H s)).
  destruct (handle w' req s) as [resp s1]. by rewrite IH.
Qed.

Lemma get_backend_same_type w w' s :
  getenv w "BACKEND" "memory" = "memory" →
  getenv w' "BACKEND" "memory" = "memory" →
  get_backend w s = get_backend w' s.
Proof.
  intros H H'. unfold get_backend. rewrite H, H'. reflexivity.
Qed.
End ServeFacts.

(* ===================================================================== *)
(** * Properties of concurrent callers                                     *)
(* ===================================================================== *)

Section ThreadFacts.
Implicit Types (w : world) (s : state) (p : pc) (ps : list pc)
  (c : config) (i : nat).

Lemma pending_insert ps : ∀ i p p',
  ps !! i = Some p →
  pending (<[i := p']> ps) + may_construct p
  = pending ps + may_construct p'.
Proof.
  unfold pending.
  induction ps as [|q ps IH]; intros [|i] p p' Hi; simplify_eq/=.
  - lia.
  - specialize (IH i p p' Hi). lia.
Qed.

Lemma step_thread_budget w p s :
  constructed (step_thread w p s).2 + may_construct (step_thread w p s).1
  ≤ constructed s + may_construct p.
Proof.
  destruct p; unfold constructed, new; simpl;
    rewrite ?length_app; simpl; try lia.
  destruct (my_backend s); simpl; lia.
Qed.

Lemma step_thread_grows w p s :
  constructed s ≤ constructed (step_thread w p s).2.
Proof.
  destruct p; unfold constructed, new; simpl;
    rewrite ?length_app; simpl; try lia.
  destruct (my_backend s); simpl; lia.
Qed.

Lemma step_length w c i : length (step w c i).1 = length c.1.
Proof.
  unfold step. destruct (c.1 !! i) as [p|]; [|done].
  destruct (step_thread w p c.2) as [p' s']. simpl.
  apply length_insert.
Qed.

Lemma step_budget w c i :
  constructed (step w c i).2 + pending (step w c i).1
  ≤ constructed c.2 + pending c.1.
Proof.
  unfold step. destruct (c.1 !! i) as [p|] eqn:Hi; [|done].
  pose proof (step_thread_budget w p c.2) as Hb.
  destruct (step_thread w p c.2) as [p' s']. simpl in *.
  pose proof (pending_insert c.1 i p p' Hi). lia.
Qed.

Lemma run_length w schedule : ∀ c, length (run w schedule c).1 = length c.1.
Proof.
  unfold run. induction schedule as [|i schedule IH]; intros c; [done|].
  simpl. rewrite IH. apply step_length.
Qed.

Lemma run_budget w schedule : ∀ c,
  constructed (run w schedule c).2 + pending (run w schedule c).1
  ≤ constructed c.2 + pending c.1.
Proof.
  unfold run. induction schedule as [|i schedule IH]; intros c; [done|].
  simpl. etrans; [apply IH | apply step_budget].
Qed.

Lemma pending_first_access n : pending (first_access n).1 = n.
Proof.
  unfold pending, first_access. cbn [fst].
  induction n as [|n IH]; [done|].
  change (replicate (S n) AtTest) with (AtTest :: replicate n AtTest).
  rewrite fmap_cons. cbn [sum_list sum_list_with may_construct].
  by rewrite IH.
Qed.

Lemma step_quiet w c i : quiet c → quiet (step w c i).
Proof.
  intros Hq. unfold step.
  destruct (c.1 !! i) as [p|] eqn:Hi; [|done].
  pose proof (step_thread_grows w p c.2) as Hg.
  destruct (step_thread w p c.2) as [p' s'] eqn:Hst. simpl in *.
  intros H0. simpl in H0.
  destruct Hq as [Hnone Hall]; [lia|].
  pose proof (Forall_lookup_1 _ _ _ _ Hall Hi) as Hp. simpl in Hp.
  destruct p; simpl in Hp; try discriminate; simpl in Hst.
  - rewrite Hnone in Hst. simplify_eq. simpl. split; [done|].
    by apply Forall_insert.
  - simplify_eq. simpl. split; [done|]. by apply Forall_insert.
  - simplify_eq. simpl. split; [done|]. by apply Forall_insert.
  - unfold new in Hst. simplify_eq. unfold constructed in H0.
    simpl in H0. rewrite length_app in H0. simpl in H0. lia.
Qed.

Lemma run_quiet w schedule : ∀ c, quiet c → quiet (run w schedule c).
Proof.
  unfold run. induction schedule as [|i schedule IH]; intros c Hq; [done|].
  simpl. apply IH. by apply step_quiet.
Qed.

Lemma first_access_quiet n : quiet (first_access n).
Proof.
  intros _. split; [done|]. simpl. apply Forall_replicate. done.
Qed.

(** No step of any caller unsets the global. *)
Lemma step_thread_keeps_global w p s :
  is_Some (my_backend s) → is_Some (my_backend (step_thread w p s).2).
Proof.
  intros Hs. destruct p; simpl; try done.
  destruct (my_backend s) eqn:Hmb; simpl; [by rewrite Hmb|].
  by destruct Hs.
Qed.

Lemma step_keeps_global w c i :
  is_Some (my_backend c.2) → is_Some (my_backend (step w c i).2).
Proof.
  intros Hs. unfold step. destruct (c.1 !! i) as [p|]; [|done].
  pose proof (step_thread_keeps_global w p c.2 Hs) as Hk.
  by destruct (step_thread w p c.2).
Qed.

Lemma run_keeps_global w schedule : ∀ c,
  is_Some (my_backend c.2) → is_Some (my_backend (run w schedule c).2).
Proof.
  unfold run. induction schedule as [|i schedule IH]; intros c Hs; [done|].
  simpl. apply IH. by apply step_keeps_global.
Qed.

Lemma step_at w ps s i p :
  ps !! i = Some p →
  step w (ps, s) i
  = (<[i := (step_thread w p s).1]> ps, (step_thread w p s).2).
Proof.
  intros Hi. unfold step. simpl. rewrite Hi.
  by destruct (step_thread w p s).
Qed.

Lemma run_alone w k : ∀ ps s i p,
  ps !! i = Some p →
  run w (replicate k i) (ps, s)
  = (<[i := (alone w k p s).1]> ps, (alone w k p s).2).
Proof.
  unfold run. induction k as [|k IH]; intros ps s i p Hi.
  - simpl. by rewrite list_insert_id.
  - simpl. rewrite (step_at w ps s i p Hi).
    destruct (step_thread w p s) as [p' s'] eqn:Hst. simpl.
    rewrite (IH (<[i := p']> ps) s' i p').
    + by rewrite list_insert_insert_eq.
    + apply list_lookup_insert_eq. by eapply lookup_lt_Some.
Qed.

(** A caller left alone from the test to the return does what
    [get_backend] does. *)
Lemma alone_get_backend w s :
  alone w 6 AtTest s = (Returned (get_backend w s).1, (get_backend w s).2).
Proof.
  unfold get_backend. simpl. destruct (my_backend s) as [l|] eqn:H.
  - simpl. by rewrite H.
  - reflexivity.
Qed.

Lemma run_caller w ps s i :
  ps !! i = Some AtTest →
  run w (replicate 6 i) (ps, s)
  = (<[i := Returned (get_backend w s).1]> ps, (get_backend w s).2).
Proof.
  intros Hi. rewrite (run_alone w 6 ps s i AtTest Hi).
  by rewrite alone_get_backend.
Qed.

Lemma run_app w sched1 sched2 c :
  run w (sched1 ++ sched2) c = run w sched2 (run w sched1 c).
Proof. unfold run. apply foldl_app. Qed.

(** Once the global is set, callers that run one after another all
    return what it holds and build nothing. *)
Lemma one_by_one_cached w l m : ∀ k ps s,
  my_backend s = Some l →
  (∀ i, k ≤ i < k + m → ps !! i = Some AtTest) →
  ∃ ps',
    run w (flat_map (λ i, replicate 6 i) (seq k m)) (ps, s) = (ps', s)
    ∧ length ps' = length ps
    ∧ (∀ i, k ≤ i < k + m → ps' !! i = Some (Returned (Some l)))
    ∧ (∀ i, ¬ (k ≤ i < k + m) → ps' !! i = ps !! i).
Proof.
  induction m as [|m IH]; intros k ps s Hl Hps.
  - exists ps. split; [done|]. split; [done|]. split; [intros; lia | done].
  - cbn [seq flat_map]. rewrite run_app.
    rewrite (run_caller w ps s k) by (apply Hps; lia).
    rewrite (get_backend_cached w s l Hl). cbn [fst snd].
    destruct (IH (S k) (<[k := Returned (Some l)]> ps) s Hl)
      as (ps' & Hrun & Hlen & Hin & Hout).
    { intros i Hi. rewrite list_lookup_insert_ne by lia. apply Hps. lia. }
    exists ps'. split; [done|]. split.
    { by rewrite Hlen, length_insert. }
    split.
    + intros i Hi. destruct (decide (i = k)) as [->|Hne].
      * rewrite Hout by lia. apply list_lookup_insert_eq.
        eapply lookup_lt_Some. apply (Hps k). lia.
      * apply Hin. lia.
    + intros i Hi. rewrite Hout by lia.
      apply list_lookup_insert_ne. lia.
Qed.

Lemma all_returned_lookup ps s :
  (∀ i, i < length ps → ∃ r, ps !! i = Some (Returned r)) →
  all_returned (ps, s) = true.
Proof.
  intros H. unfold all_returned. simpl. apply forallb_forall.
  intros p Hp. apply list_elem_of_In in Hp.
  apply list_elem_of_lookup in Hp as [i Hi].
  destruct (H i) as [r Hr]; [by eapply lookup_lt_Some|].
  rewrite Hr in Hi. by simplify_eq.
Qed.

Lemma one_by_one_first_access w n :
  1 ≤ n →
  all_returned (run w (one_by_one n) (first_access n)) = true
  ∧ constructed (run w (one_by_one n) (first_access n)).2 = 1.
Proof.
  intros Hn. destruct n as [|m]; [lia|].
  unfold one_by_one, first_access.
  cbn [seq flat_map]. rewrite run_app.
  rewrite (run_caller w (replicate (S m) AtTest) initial 0) by done.
  rewrite (get_backend_first w initial) by done. cbn [fst snd].
  cbn [initial heap trace length app].
  match goal with |- context [run w _ (?ps0, ?s0)] =>
    destruct (one_by_one_cached w 0 m 1 ps0 s0) as
      (ps' & Hrun & Hlen & Hin & Hout) end.
  { done. }
  { intros i Hi. rewrite list_lookup_insert_ne by lia.
    apply lookup_replicate_2. lia. }
  rewrite Hrun. split; [|done].
  apply all_returned_lookup. intros i Hi.
  rewrite Hlen, length_insert, length_replicate in Hi.
  destruct (decide (i = 0)) as [->|Hne].
  - rewrite Hout by lia. eexists. apply list_lookup_insert_eq.
    rewrite length_replicate. lia.
  - eexists. apply Hin. lia.
Qed.
End ThreadFacts.

(* ===================================================================== *)
(** * The backend selector                                                 *)
(* ===================================================================== *)

(** C1, as stated, fails: with BACKEND set to "remote-cache", the value the
    specification names for the remote-cache variant, [get_backend] builds
    the Memory variant. *)
Lemma remote_cache_value_builds_memory :
  named_by_spec "remote-cache" = Some KRedis
  ∧ selected (world_with (Some "remote-cache")) initial = Some KMemory
  ∧ ¬ (∀ w value kind,
         environ w !! "BACKEND" = Some value →
         named_by_spec value = Some kind →
         selected w initial = Some kind).
Proof.
  split; [reflexivity|]. split; [reflexivity|].
  intros H.
  specialize (H (world_with (Some "remote-cache")) "remote-cache" KRedis).
  discriminate H; reflexivity.
Qed.

(** C1 (amended): on the first access [get_backend] builds exactly one
    object and returns it without raising: a RedisBackend when BACKEND is
    "redis", a GCSBackend when it is "gcs", and a MemoryBackend for every
    other value and when the variable is unset. *)
Theorem get_backend_constructs_by_value (w : world) (s : state) :
  my_backend s = None →
  constructed (get_backend w s).2 = S (constructed s)
  ∧ (environ w !! "BACKEND" = Some "redis" → selected w s = Some KRedis)
  ∧ (environ w !! "BACKEND" = Some "gcs" → selected w s = Some KGCS)
  ∧ (∀ value, environ w !! "BACKEND" = Some value →
       value ≠ "redis" → value ≠ "gcs" → selected w s = Some KMemory)
  ∧ (environ w !! "BACKEND" = None → selected w s = Some KMemory).
Proof.
  intros Hnone. rewrite (selected_first w s Hnone).
  split; [|repeat split].
  - rewrite (get_backend_first w s Hnone). unfold constructed. simpl.
    rewrite length_app. simpl. lia.
  - intros H. unfold getenv. by rewrite H.
  - intros H. unfold getenv. by rewrite H.
  - intros value H H1 H2. unfold getenv. rewrite H.
    by rewrite construct_other.
  - intros H. unfold getenv. by rewrite H.
Qed.

Lemma get_backend_constructs_by_value_witness :
  my_backend initial = None
  ∧ selected (world_with (Some "redis")) initial = Some KRedis
  ∧ selected (world_with (Some "object-store")) initial = Some KMemory.
Proof.
  split; [reflexivity|].
  pose proof (get_backend_constructs_by_value
                (world_with (Some "redis")) initial eq_refl)
    as (_ & Hredis & _).
  pose proof (get_backend_constructs_by_value
                (world_with (Some "object-store")) initial eq_refl)
    as (_ & _ & _ & Hother & _).
  split.
  - apply Hredis. reflexivity.
  - apply (Hother "object-store"); [reflexivity | discriminate | discriminate].
Defined.

(** C2, as stated, fails when an access overlaps the first one.  Caller 1
    tests the global while it is still None; caller 0 then makes the first
    access and returns object 0, and caller 2 has not begun.  Caller 1
    resumes: it reads BACKEND a second time, builds object 1 and stores it.
    Caller 2, whose whole access comes after the first access has returned,
    is given object 1, not the cached object 0. *)
Lemma late_store_replaces_cached_backend :
  (run (world_with None) overlap_head (first_access 3)).1 !! 0
  = Some (Returned (Some 0))
  ∧ (run (world_with None) overlap_head (first_access 3)).1 !! 2
    = Some AtTest
  ∧ (run (world_with None) overlap_tail
       (run (world_with None) overlap_head (first_access 3))).1 !! 2
    = Some (Returned (Some 1))
  ∧ length (getenv_reads
              (trace (run (world_with None) overlap_tail
                        (run (world_with None) overlap_head
                           (first_access 3))).2)) = 2
  ∧ ¬ (∀ w n head tail i j l r,
         (run w head (first_access n)).1 !! i = Some (Returned (Some l)) →
         (run w head (first_access n)).1 !! j = Some AtTest →
         (run w tail (run w head (first_access n))).1 !! j
         = Some (Returned r) →
         r = Some l).
Proof.
  split; [reflexivity|]. split; [reflexivity|]. split; [reflexivity|].
  split; [reflexivity|].
  intros H.
  specialize (H (world_with None) 3 overlap_head overlap_tail 0 2 0 (Some 1)
                eq_refl eq_refl eq_refl).
  discriminate H.
Qed.

(** C2 (amended): when the accesses run one after another, once an access
    has returned a backend, every later access, after any requests and
    under any environment, returns that same object and leaves the state as
    it is (nothing is read from the environment, and nothing is built);
    and however the accesses interleave, the global, once set, never goes
    back to None. *)
Theorem cached_backend_is_kept (w : world) (s : state) :
  (∃ l, (get_backend w s).1 = Some l
     ∧ ∀ reqs,
         let s1 := (get_backend w s).2 in
         let s2 := (serve reqs s1).2 in
         my_backend s2 = Some l
         ∧ (∀ w', get_backend w' s2 = (Some l, s2))
         ∧ getenv_reads (trace s2) = getenv_reads (trace s1)
         ∧ constructed s2 = constructed s1)
  ∧ (∀ schedule ps,
       is_Some (my_backend s) →
       is_Some (my_backend (run w schedule (ps, s)).2)).
Proof.
  split.
  - destruct (get_backend_some w s) as (l & Hl & Hr).
    exists l. split; [done|]. intros reqs s1 s2.
    destruct (serve_keeps reqs s1 l Hl) as [H1 H2].
    split; [done|]. split; [|split; [done|]].
    + intros w'. by apply get_backend_cached.
    + by apply (serve_builds_nothing reqs s1 l).
  - intros schedule ps Hs. by apply (run_keeps_global w schedule (ps, s)).
Qed.

Lemma cached_backend_is_kept_witness :
  is_Some (my_backend (get_backend (world_with None) initial).2)
  ∧ is_Some (my_backend
               (run (world_with None) racing_schedule
                  (replicate 2 AtTest,
                   (get_backend (world_with None) initial).2)).2).
Proof.
  assert (is_Some (my_backend (get_backend (world_with None) initial).2))
    as Hset by (exists 0; reflexivity).
  split; [exact Hset|].
  destruct (cached_backend_is_kept (world_with None)
              (get_backend (world_with None) initial).2) as [_ Hkeeps].
  apply (Hkeeps racing_schedule (replicate 2 AtTest) Hset).
Defined.

(** C7: with BACKEND unset the selector builds the Memory variant, and
    the process then answers every sequence of requests, from every state,
    exactly as it does with BACKEND set to "memory": same selection, same
    responses, same final state. *)
Theorem unset_behaves_as_memory (w w' : world) :
  environ w !! "BACKEND" = None →
  environ w' !! "BACKEND" = Some "memory" →
  selected w initial = Some KMemory
  ∧ selected w' initial = Some KMemory
  ∧ ∀ s, get_backend w s = get_backend w' s
         ∧ ∀ reqs, serve (under w reqs) s = serve (under w' reqs) s.
Proof.
  intros Hw Hw'.
  assert (getenv w "BACKEND" "memory" = "memory") as Hg
    by (unfold getenv; by rewrite Hw).
  assert (getenv w' "BACKEND" "memory" = "memory") as Hg'
    by (unfold getenv; by rewrite Hw').
  split; [by rewrite selected_first, Hg|].
  split; [by rewrite selected_first, Hg'|].
  intros s. split; [by apply get_backend_same_type|].
  intros reqs. apply serve_same_selection.
  intros s'. by apply get_backend_same_type.
Qed.

Lemma unset_behaves_as_memory_witness :
  environ (world_with None) !! "BACKEND" = None
  ∧ environ (world_with (Some "memory")) !! "BACKEND" = Some "memory"
  ∧ serve (under (world_with None)
             [POST_notes "u1" sample_request; GET_notes]) initial
    = serve (under (world_with (Some "memory"))
               [POST_notes "u1" sample_request; GET_notes]) initial.
Proof.
  split; [reflexivity|]. split; [reflexivity|].
  apply (unset_behaves_as_memory (world_with None)
           (world_with (Some "memory")) eq_refl eq_refl).
Defined.

(* ===================================================================== *)
(** * Concurrent first accesses                                            *)
(* ===================================================================== *)

(** C3, as stated, fails: two callers whose tests of the global both come
    before the first store each build a backend; both calls return, and two
    objects have been constructed. *)
Lemma two_callers_build_two_backends :
  all_returned (run (world_with None) racing_schedule (first_access 2)) = true
  ∧ constructed (run (world_with None) racing_schedule (first_access 2)).2 = 2
  ∧ ¬ (∀ w n schedule,
         1 ≤ n →
         all_returned (run w schedule (first_access n)) = true →
         constructed (run w schedule (first_access n)).2 = 1).
Proof.
  split; [reflexivity|]. split; [reflexivity|].
  intros H.
  specialize (H (world_with None) 2 racing_schedule).
  discriminate H; [lia | reflexivity].
Qed.

(** C3 (amended): when n >= 1 callers make the very first access
    concurrently, under every interleaving at most n backends are
    constructed, and at least one once all callers have returned; exactly
    one is constructed when the callers run one after another. *)
Theorem concurrent_first_access_bounds (w : world) (n : nat) :
  1 ≤ n →
  (∀ schedule,
     constructed (run w schedule (first_access n)).2 ≤ n
     ∧ (all_returned (run w schedule (first_access n)) = true →
        1 ≤ constructed (run w schedule (first_access n)).2))
  ∧ all_returned (run w (one_by_one n) (first_access n)) = true
  ∧ constructed (run w (one_by_one n) (first_access n)).2 = 1.
Proof.
  intros Hn. split; [|by apply one_by_one_first_access].
  intros schedule. split.
  - pose proof (run_budget w schedule (first_access n)) as Hb.
    rewrite pending_first_access in Hb.
    change (constructed (first_access n).2) with 0 in Hb. lia.
  - intros Hall.
    pose proof (run_quiet w schedule _ (first_access_quiet n)) as Hq.
    pose proof (run_length w schedule (first_access n)) as Hlen.
    destruct (run w schedule (first_access n)) as [ps s]. simpl in *.
    rewrite length_replicate in Hlen.
    destruct (constructed s) as [|k] eqn:Hc; [|lia].
    destruct Hq as [_ Hearly]; [done|].
    destruct ps as [|p ps]; [simpl in Hlen; lia|].
    apply Forall_cons in Hearly as [Hp _].
    unfold all_returned in Hall. simpl in Hall.
    apply andb_true_iff in Hall as [Hret _].
    destruct p; simpl in *; discriminate.
Qed.

Lemma concurrent_first_access_bounds_witness :
  1 ≤ 2
  ∧ constructed (run (world_with None) racing_schedule (first_access 2)).2 ≤ 2
  ∧ constructed (run (world_with None) (one_by_one 2) (first_access 2)).2 = 1.
Proof.
  split; [lia|].
  destruct (concurrent_first_access_bounds (world_with None) 2)
    as (Hany & _ & Hseq); [lia|].
  split; [apply (Hany racing_schedule) | exact Hseq].
Defined.

(* ===================================================================== *)
(** * The backend contract: set, then get                                  *)
(* ===================================================================== *)

(** C4: for each of the three variants, set(id, request) returns whenever
    the store answers (for the Memory variant: always), and once it has
    returned, get(id) returns a Note carrying the request's title and
    content (and the identifier); the same through the routes: PUT
    /notes/{id} followed by GET /notes/{id}. *)
Theorem set_then_get_round_trip (b : backend) (note_id : string)
    (request : CreateNoteRequest.t) (t : list event) :
  (available b = true → ∃ b', set b note_id request = Ok b')
  ∧ ∀ b', set b note_id request = Ok b' →
      ∃ note,
        get b' note_id = Ok note
        ∧ Note.title note = CreateNoteRequest.title request
        ∧ Note.content note = CreateNoteRequest.content request
        ∧ Note.id note = note_id
        ∧ (do! update_note note_id request; get_note note_id) (b, t)
          = (Ok note, (b', t ++ [ESpan "update_note"; ESet note_id request;
                                 ESpan "get_note"; EGet note_id])).
Proof.
  split.
  - intros Hav. pose proof (set_available b note_id request Hav) as Hok.
    destruct (set b note_id request) as [b'|e]; [eauto | discriminate].
  - intros b' Hset. eexists. split; [by eapply get_after_set|].
    repeat split. unfold bind at 1.
    rewrite (update_note_returns b b' t note_id request Hset).
    rewrite get_note_is_get, (get_after_set b b' note_id request Hset).
    by rewrite <- !app_assoc.
Qed.

Lemma set_then_get_round_trip_witness :
  available memory_with_a = true
  ∧ ∃ b' note,
      set memory_with_a "b" other_request = Ok b'
      ∧ get b' "b" = Ok note
      ∧ Note.title note = "todo"
      ∧ Note.content note = "water the plants".
Proof.
  split; [reflexivity|].
  destruct (set_then_get_round_trip memory_with_a "b" other_request [])
    as [Hreturns Hround].
  destruct (Hreturns eq_refl) as [b' Hset].
  destruct (Hround b' Hset) as (note & Hget & Htitle & Hcontent & _).
  exists b', note. repeat split; assumption.
Defined.

(** C5: for each variant, once set(id, request1) and then
    set(id, request2) have returned, get(id) returns request2's title and
    content, and the object is the one a single set(id, request2) would
    have left: nothing of request1 remains. *)
Theorem second_set_overwrites (b b1 b2 : backend) (note_id : string)
    (request1 request2 : CreateNoteRequest.t) :
  set b note_id request1 = Ok b1 →
  set b1 note_id request2 = Ok b2 →
  get b2 note_id
  = Ok (Note.mk note_id (CreateNoteRequest.title request2)
                (CreateNoteRequest.content request2))
  ∧ set b note_id request2 = Ok b2.
Proof.
  intros H1 H2. split.
  - by eapply get_after_set.
  - by rewrite <- (set_overwrites b b1 note_id request1 request2 H1).
Qed.

Lemma second_set_overwrites_witness :
  get (Memory (MemoryBackend.mk
                 (<["a" := Note.mk "a" "todo" "water the plants"]>
                    (<["a" := Note.mk "a" "groceries" "milk, eggs"]> ∅))))
      "a"
  = Ok (Note.mk "a" "todo" "water the plants").
Proof.
  apply (second_set_overwrites (Memory MemoryBackend.init) _ _ "a"
           sample_request other_request eq_refl eq_refl).
Defined.

(** C6, as stated, fails: on a Redis backend whose server does not answer,
    get of an identifier that was never set fails with BackendUnavailable,
    not with NotFound. *)
Lemma unreachable_get_is_not_NotFound :
  empty_store unreachable_redis
  ∧ get (set_all [] unreachable_redis) "a" = Raise BackendUnavailable
  ∧ ¬ (∀ (b : backend) history note_id,
         empty_store b →
         note_id ∉ history.*1 →
         get (set_all history b) note_id = Raise NotFound).
Proof.
  split; [reflexivity|]. split; [reflexivity|].
  intros H.
  specialize (H unreachable_redis [] "a" eq_refl (not_elem_of_nil _)).
  discriminate H.
Qed.

(** C6 (amended): for each variant, starting from an empty store and
    after any history of set calls, get(id) fails for every identifier that
    was never passed to set: with NotFound when the store answers (the
    Memory variant always does), with BackendUnavailable when the service of
    a network variant is unreachable. *)
Theorem get_never_set_fails (b : backend)
    (history : list (string * CreateNoteRequest.t)) (note_id : string) :
  empty_store b →
  note_id ∉ history.*1 →
  get (set_all history b) note_id
  = Raise (if available b then NotFound else BackendUnavailable).
Proof.
  intros Hempty Hnotin. destruct (available b) eqn:Hav.
  - rewrite get_set_all by done. by apply get_empty.
  - rewrite set_all_unavailable by done. by apply get_unavailable.
Qed.

Lemma get_never_set_fails_witness :
  get (set_all [("a", sample_request)] (Memory MemoryBackend.init)) "b"
  = Raise NotFound.
Proof.
  apply (get_never_set_fails (Memory MemoryBackend.init)
           [("a", sample_request)] "b" eq_refl).
  intros H. apply list_elem_of_singleton in H. discriminate H.
Defined.

(* ===================================================================== *)
(** * The routes                                                           *)
(* ===================================================================== *)

Lemma calls_app (t1 t2 : list event) : calls (t1 ++ t2) = calls t1 ++ calls t2.
Proof. apply List.filter_app. Qed.

Lemma calls_gets (ks : list string) : calls (EGet <$> ks) = EGet <$> ks.
Proof.
  induction ks as [|k ks IH]; [done|].
  rewrite fmap_cons. unfold calls in *. simpl. by rewrite IH.
Qed.

(** C8: for any backend object, when keys() returns the keys [ks] and get
    returns the note [ns !! i] for each key [ks !! i], the list-notes
    handler makes exactly these method calls, in this order: keys(), then
    get(key) for each returned key; it returns the array of the notes that
    the get calls returned and leaves the backend as it was. *)
Theorem get_notes_calls_keys_then_get {B : Type} `{!Backend B} (b : B)
    (t : list event) (ks : list string) (ns : list Note.t) :
  keys b = Ok ks →
  fetched b ks ns →
  ∃ t',
    get_notes (b, t) = (Ok ns, (b, t'))
    ∧ calls t' = calls t ++ EKeys :: (EGet <$> ks).
Proof.
  intros Hk Hf. eexists. split; [by apply get_notes_returns|].
  rewrite !calls_app, calls_gets. reflexivity.
Qed.

Lemma get_notes_calls_keys_then_get_witness :
  ∃ t',
    get_notes (memory_with_a, [])
    = (Ok [Note.mk "a" "groceries" "milk, eggs"], (memory_with_a, t'))
    ∧ calls t' = [EKeys; EGet "a"].
Proof.
  apply (get_notes_calls_keys_then_get memory_with_a [] ["a"]
           [Note.mk "a" "groceries" "milk, eggs"]).
  - reflexivity.
  - constructor; [reflexivity | constructor].
Defined.

(** C9: for any backend object and any create request, the create handler
    takes the identifier that str(uuid4()) produced, makes one method
    call, set(identifier, request), and, that call having returned,
    returns the identifier: the string returned is the key that was passed
    to set, and the backend is the one that set left. *)
Theorem create_note_sets_once_and_returns_id {B : Type} `{!Backend B}
    (b b' : B) (t : list event) (uuid4_str : string)
    (request : CreateNoteRequest.t) :
  set b uuid4_str request = Ok b' →
  ∃ t',
    create_note uuid4_str request (b, t) = (Ok uuid4_str, (b', t'))
    ∧ calls t' = calls t ++ [ESet uuid4_str request].
Proof.
  intros Hset. eexists. split.
  - unfold create_note, bind, emit, call_set, ret. rewrite Hset.
    reflexivity.
  - rewrite <- !app_assoc, calls_app. reflexivity.
Qed.

Lemma create_note_sets_once_and_returns_id_witness :
  ∃ b' t',
    create_note "123e4567-e89b-42d3-a456-426614174000" sample_request
      (Memory MemoryBackend.init, [])
    = (Ok "123e4567-e89b-42d3-a456-426614174000", (b', t'))
    ∧ calls t'
      = [ESet "123e4567-e89b-42d3-a456-426614174000" sample_request].
Proof.
  eexists.
  apply (create_note_sets_once_and_returns_id (Memory MemoryBackend.init) _
           [] "123e4567-e89b-42d3-a456-426614174000" sample_request).
  reflexivity.
Defined.

(** C10: for any backend object, when keys() returns [ks] and get returns
    a note for each of them, the list-notes handler returns a list with
    exactly one note per key, the i-th note being the one get returns for
    the i-th key; when keys() returns the empty sequence, it returns the
    empty list. *)
Theorem get_notes_one_note_per_key {B : Type} `{!Backend B} (b : B)
    (t : list event) (ks : list string) :
  keys b = Ok ks →
  (∀ k, k ∈ ks → ∃ n, get b k = Ok n) →
  ∃ ns,
    (get_notes (b, t)).1 = Ok ns
    ∧ length ns = length ks
    ∧ (∀ i k, ks !! i = Some k → ∃ n, ns !! i = Some n ∧ get b k = Ok n)
    ∧ (ks = [] → ns = []).
Proof.
  intros Hk Hall. destruct (fetched_exists b ks Hall) as [ns Hf].
  exists ns. rewrite (get_notes_returns b t ks ns Hk Hf).
  split; [done|]. split; [symmetry; by eapply Forall2_length|].
  split.
  - intros i k Hi.
    destruct (Forall2_lookup_l _ _ _ _ _ Hf Hi) as (n & Hn & Hget). eauto.
  - intros ->. by apply Forall2_nil_inv_l in Hf.
Qed.

Lemma get_notes_one_note_per_key_witness :
  ∃ ns, (get_notes (memory_with_a, [])).1 = Ok ns ∧ length ns = 1.
Proof.
  destruct (get_notes_one_note_per_key memory_with_a [] ["a"])
    as (ns & Hret & Hlen & _).
  - reflexivity.
  - intros k Hk. apply list_elem_of_singleton in Hk as ->.
    eexists. reflexivity.
  - exists ns. split; [exact Hret | exact Hlen].
Defined.

(* ===================================================================== *)
(** * Failures inside the handlers                                         *)
(* ===================================================================== *)

Section HandlerFailures.
Context {B : Type} `{!Backend B}.
Implicit Types (b : B) (t : list event) (ks : list string)
  (ns : list Note.t).

Lemma for_key_in_app ks1 : ∀ ks2 ns1 Notes b t,
  fetched b ks1 ns1 →
  for_key_in (ks1 ++ ks2) Notes (b, t)
  = for_key_in ks2 (Notes ++ ns1) (b, t ++ (EGet <$> ks1)).
Proof.
  induction ks1 as [|k ks1 IH]; intros ks2 ns1 Notes b t Hf.
  - apply Forall2_nil_inv_l in Hf as ->. simpl. by rewrite !app_nil_r.
  - apply Forall2_cons_inv_l in Hf as (n & ns' & Hk & Hf & ->).
    cbn [for_key_in app]. unfold bind at 1. unfold call_get at 1.
    rewrite Hk. rewrite (IH ks2 ns' (Notes ++ [n]) b (t ++ [EGet k]) Hf).
    rewrite fmap_cons. by rewrite <- !app_assoc.
Qed.

(** X1: when a get raises inside the loop of list-notes, the handler raises
    that same exception at once: it has called keys(), get for the keys
    before the failing one and get for the failing key, it calls get for
    none of the keys after it, and no partial list is returned. *)
Theorem get_notes_stops_at_first_failure b t ks1 k ks2 ns1 e :
  keys b = Ok (ks1 ++ k :: ks2) →
  fetched b ks1 ns1 →
  get b k = Raise e →
  ∃ t',
    get_notes (b, t) = (Raise e, (b, t'))
    ∧ calls t' = calls t ++ EKeys :: (EGet <$> ks1) ++ [EGet k].
Proof.
  intros Hk Hf He. eexists. split.
  - unfold get_notes, bind at 1 2, emit, call_keys. rewrite Hk.
    rewrite (for_key_in_app ks1 (k :: ks2) ns1 [] b _ Hf).
    cbn [for_key_in]. unfold bind, call_get. rewrite He. reflexivity.
  - rewrite <- !app_assoc, !calls_app, calls_gets. reflexivity.
Qed.

(** X2: when set raises, the update and the create handlers raise that
    same exception after their one set call; the create handler then
    returns no identifier and records neither of its span attributes. *)
Theorem write_handlers_propagate_failure b t note_id request e :
  set b note_id request = Raise e →
  update_note note_id request (b, t)
  = (Raise e, (b, t ++ [ESpan "update_note"; ESet note_id request]))
  ∧ create_note note_id request (b, t)
    = (Raise e, (b, t ++ [ESpan "create_note"; ESet note_id request])).
Proof.
  intros He. split.
  - unfold update_note, bind, emit, call_set. rewrite He.
    by rewrite <- !app_assoc.
  - unfold create_note, bind, emit, call_set. rewrite He.
    by rewrite <- !app_assoc.
Qed.
End HandlerFailures.

Lemma get_notes_stops_at_first_failure_witness :
  ∃ t',
    get_notes (stale_listing, [])
    = (Raise NotFound, (stale_listing, t'))
    ∧ calls t' = [EKeys; EGet "a"; EGet "b"].
Proof.
  apply (get_notes_stops_at_first_failure stale_listing []
           ["a"] "b" ["c"] [Note.mk "a" "groceries" "milk, eggs"] NotFound).
  - reflexivity.
  - constructor; [reflexivity | constructor].
  - reflexivity.
Defined.

Lemma write_handlers_propagate_failure_witness :
  create_note "u1" sample_request (unreachable_redis, [])
  = (Raise BackendUnavailable,
     (unreachable_redis, [ESpan "create_note"; ESet "u1" sample_request])).
Proof.
  apply (write_handlers_propagate_failure unreachable_redis [] "u1"
           sample_request BackendUnavailable).
  reflexivity.
Defined.

(* ===================================================================== *)
(** * What the handlers record                                             *)
(* ===================================================================== *)

Section HandlerTraces.
Context {B : Type} `{!Backend B}.

Lemma body_only_ret {A} (a : A) : body_only (B:=B) (ret a).
Proof. intros b t. exists []. simpl. by rewrite app_nil_r. Qed.

Lemma body_only_bind {A C} (m : Handler B A) (k : A → Handler B C) :
  body_only m → (∀ a, body_only (k a)) → body_only (bind m k).
Proof.
  intros Hm Hk b t. unfold bind.
  destruct (Hm b t) as (new1 & H1 & HF1).
  destruct (m (b, t)) as [[a|e] [b' t']]; simpl in *.
  - destruct (Hk a b' t') as (new2 & H2 & HF2).
    exists (new1 ++ new2). rewrite H2, H1, app_assoc.
    split; [done | by apply Forall_app].
  - by exists new1.
Qed.

Lemma body_only_emit e :
  is_body_event e = true → body_only (B:=B) (emit e).
Proof. intros He b t. exists [e]. simpl. split; [done | by constructor]. Qed.

Lemma body_only_call_keys : body_only (B:=B) call_keys.
Proof. intros b t. exists [EKeys]. split; [done | by constructor]. Qed.

Lemma body_only_call_get note_id : body_only (B:=B) (call_get note_id).
Proof.
  intros b t. exists [EGet note_id]. split; [done | by constructor].
Qed.

Lemma body_only_call_set note_id request :
  body_only (B:=B) (call_set note_id request).
Proof.
  intros b t. exists [ESet note_id request]. unfold call_set.
  destruct (set b note_id request); split; by try constructor.
Qed.

Lemma body_only_for_key_in ks :
  ∀ Notes, body_only (B:=B) (for_key_in ks Notes).
Proof.
  induction ks as [|k ks IH]; intros Notes; simpl.
  - apply body_only_ret.
  - apply body_only_bind; [apply body_only_call_get | intros; apply IH].
Qed.

Lemma spanned_intro {A} name (k : Handler B A) :
  body_only k → spanned name (bind (emit (ESpan name)) (λ _, k)).
Proof.
  intros Hk b t. unfold bind, emit.
  destruct (Hk b (t ++ [ESpan name])) as (new & H1 & HF).
  exists new. rewrite H1. split; [by rewrite <- app_assoc | done].
Qed.

Lemma spanned_get_notes : spanned (B:=B) "get_notes" get_notes.
Proof.
  apply spanned_intro.
  apply body_only_bind; [apply body_only_call_keys | intros ks].
  apply body_only_for_key_in.
Qed.

Lemma spanned_get_note note_id : spanned (B:=B) "get_note" (get_note note_id).
Proof. apply spanned_intro, body_only_call_get. Qed.

Lemma spanned_update_note note_id request :
  spanned (B:=B) "update_note" (update_note note_id request).
Proof. apply spanned_intro, body_only_call_set. Qed.

Lemma spanned_create_note uuid4_str request :
  spanned (B:=B) "create_note" (create_note uuid4_str request).
Proof.
  apply spanned_intro.
  apply body_only_bind; [apply body_only_call_set | intros _].
  apply body_only_bind; [by apply body_only_emit | intros _].
  apply body_only_bind; [by apply body_only_emit | intros _].
  apply body_only_ret.
Qed.

Lemma read_only_ret {A} (a : A) : read_only (B:=B) (ret a).
Proof. by intros b t. Qed.

Lemma read_only_bind {A C} (m : Handler B A) (k : A → Handler B C) :
  read_only m → (∀ a, read_only (k a)) → read_only (bind m k).
Proof.
  intros Hm Hk b t. unfold bind. specialize (Hm b t).
  destruct (m (b, t)) as [[a|e] [b' t']]; simpl in *; subst; [|done].
  apply Hk.
Qed.

Lemma read_only_emit e : read_only (B:=B) (emit e).
Proof. by intros b t. Qed.

Lemma read_only_call_get note_id : read_only (B:=B) (call_get note_id).
Proof. by intros b t. Qed.

Lemma read_only_for_key_in ks :
  ∀ Notes, read_only (B:=B) (for_key_in ks Notes).
Proof.
  induction ks as [|k ks IH]; intros Notes; simpl.
  - apply read_only_ret.
  - apply read_only_bind; [apply read_only_call_get | intros; apply IH].
Qed.

Lemma read_only_get_notes : read_only (B:=B) get_notes.
Proof.
  unfold get_notes. apply read_only_bind; [apply read_only_emit | intros _].
  apply read_only_bind; [by intros b t | intros ks].
  apply read_only_for_key_in.
Qed.

Lemma read_only_get_note note_id : read_only (B:=B) (get_note note_id).
Proof.
  unfold get_note. apply read_only_bind; [apply read_only_emit | intros _].
  apply read_only_call_get.
Qed.
End HandlerTraces.

Lemma selector_events_body (new : list event) :
  Forall (λ e, is_body_event e = true) new → selector_events new = [].
Proof.
  induction 1 as [|e new He _ IH]; [done|].
  unfold selector_events in *. simpl. rewrite IH.
  by destruct e.
Qed.

Lemma handler_spans_body (new : list event) :
  Forall (λ e, is_body_event e = true) new → handler_spans new = [].
Proof.
  induction 1 as [|e new He _ IH]; [done|].
  unfold handler_spans in *. simpl. rewrite IH.
  by destruct e.
Qed.

(* ===================================================================== *)
(** * Whole runs of the process                                            *)
(* ===================================================================== *)

Section Runs.
Implicit Types (w : world) (s : state) (l : loc) (req : request).

Lemma get_backend_wf w s : wf s → wf (get_backend w s).2.
Proof.
  intros Hwf. destruct (my_backend s) as [l|] eqn:H.
  - by rewrite (get_backend_cached w s l H).
  - rewrite (get_backend_first w s H). unfold wf. simpl.
    rewrite length_app. simpl. lia.
Qed.

Lemma get_backend_twice w w' s :
  get_backend w' (get_backend w s).2
  = ((get_backend w s).1, (get_backend w s).2).
Proof.
  destruct (get_backend_some w s) as (l & Hl & Hr).
  rewrite Hr. by apply get_backend_cached.
Qed.

Lemma handle_first_use w req s :
  uses_backend req = true →
  handle w req s = handle w req (get_backend w s).2.
Proof.
  intros Hu. destruct req; [discriminate|..]; unfold handle, depends;
    rewrite (get_backend_twice w w s); by destruct (get_backend w s).
Qed.

Lemma depends_ready {A} w (body : Handler backend A) reply name s l :
  wf s → my_backend s = Some l →
  spanned name body →
  (∀ a, reply a ≠ NoBackend) →
  (depends w body reply s).1 ≠ NoBackend
  ∧ my_backend (depends w body reply s).2 = Some l
  ∧ length (heap (depends w body reply s).2) = length (heap s)
  ∧ ∃ new, trace (depends w body reply s).2 = trace s ++ ESpan name :: new
           ∧ Forall (λ e, is_body_event e = true) new.
Proof.
  intros Hwf Hl Hbody Hreply. unfold depends.
  rewrite (get_backend_cached w s l Hl). cbv beta iota.
  unfold wf in Hwf. rewrite Hl in Hwf.
  destruct (heap s !! l) as [b|] eqn:Hb;
    [|apply lookup_ge_None in Hb; lia].
  destruct (Hbody b (trace s)) as (new & Hnew & HF).
  destruct (body (b, trace s)) as [res [b' t']]. simpl in *.
  split; [destruct res; [apply Hreply | done]|].
  split; [done|]. split; [apply length_insert|]. eauto.
Qed.

Lemma handle_ready w req s l :
  wf s → my_backend s = Some l →
  (handle w req s).1 ≠ NoBackend
  ∧ my_backend (handle w req s).2 = Some l
  ∧ length (heap (handle w req s).2) = length (heap s)
  ∧ ∃ name new, trace (handle w req s).2 = trace s ++ ESpan name :: new
                ∧ Forall (λ e, is_body_event e = true) new.
Proof.
  intros Hwf Hl. destruct req; simpl.
  - split; [done|]. split; [done|]. split; [done|].
    exists "redirect_to_notes", []. by split.
  - edestruct (depends_ready w get_notes NoteList) as (?&?&?&?&?&?);
      [done | done | apply spanned_get_notes | done |]. eauto 10.
  - edestruct (depends_ready w (get_note note_id) OneNote) as (?&?&?&?&?&?);
      [done | done | apply spanned_get_note | done |]. eauto 10.
  - edestruct (depends_ready w (update_note note_id body) (λ _, Empty))
      as (?&?&?&?&?&?);
      [done | done | apply spanned_update_note | done |]. eauto 10.
  - edestruct (depends_ready w (create_note uuid4_str body) NewId)
      as (?&?&?&?&?&?);
      [done | done | apply spanned_create_note | done |]. eauto 10.
Qed.

Lemma handle_ready_wf w req s l :
  wf s → my_backend s = Some l → wf (handle w req s).2.
Proof.
  intros Hwf Hl. destruct (handle_ready w req s l Hwf Hl) as (_ & H1 & H2 & _).
  unfold wf in *. rewrite H1, H2. by rewrite Hl in Hwf.
Qed.

Lemma serve_ready reqs : ∀ s l,
  wf s → my_backend s = Some l →
  (NoBackend ∉ (serve reqs s).1)
  ∧ wf (serve reqs s).2
  ∧ selector_events (trace (serve reqs s).2) = selector_events (trace s)
  ∧ length (handler_spans (trace (serve reqs s).2))
    = length (handler_spans (trace s)) + length reqs.
Proof.
  induction reqs as [|[w req] reqs IH]; intros s l Hwf Hl.
  - simpl. split; [apply not_elem_of_nil|]. split; [done|]. split; [done|lia].
  - simpl.
    destruct (handle_ready w req s l Hwf Hl)
      as (Hresp & Hmb & _ & name & new & Htr & HF).
    pose proof (handle_ready_wf w req s l Hwf Hl) as Hwf1.
    destruct (handle w req s) as [resp s1]. simpl in *.
    destruct (IH s1 l Hwf1 Hmb) as (Hno & Hwf2 & Hsel & Hsp).
    destruct (serve reqs s1) as [resps s2]. simpl in *.
    split; [apply not_elem_of_cons; by split|]. split; [done|].
    rewrite Hsel, Hsp, Htr. unfold selector_events, handler_spans.
    rewrite !List.filter_app. simpl.
    fold (selector_events new). fold (handler_spans new).
    rewrite (selector_events_body new HF), (handler_spans_body new HF).
    rewrite !app_nil_r, length_app. simpl. split; [done | lia].
Qed.
End Runs.

Section FirstUse.
Implicit Types (w : world) (s : state) (l : loc) (req : request).

Lemma serve_cons w req reqs s :
  serve ((w, req) :: reqs) s
  = ((handle w req s).1 :: (serve reqs (handle w req s).2).1,
     (serve reqs (handle w req s).2).2).
Proof.
  simpl. destruct (handle w req s) as [resp s1]. simpl.
  by destruct (serve reqs s1).
Qed.

Lemma serve_unready reqs : ∀ s,
  my_backend s = None →
  match first_use reqs with
  | None =>
      (serve reqs s).1 = replicate (length reqs) (Redirect "/notes")
      ∧ my_backend (serve reqs s).2 = None
      ∧ heap (serve reqs s).2 = heap s
      ∧ selector_events (trace (serve reqs s).2) = selector_events (trace s)
  | Some w1 =>
      let backend_type := getenv w1 "BACKEND" "memory" in
      (NoBackend ∉ (serve reqs s).1)
      ∧ wf (serve reqs s).2
      ∧ my_backend (serve reqs s).2 = Some (length (heap s))
      ∧ constructed (serve reqs s).2 = S (constructed s)
      ∧ selector_events (trace (serve reqs s).2)
        = selector_events (trace s)
          ++ [EGetenv "BACKEND" "memory"; EPrint backend_type;
              EConstruct (kind_of (construct w1 backend_type))
                         (length (heap s))]
  end
  ∧ length (handler_spans (trace (serve reqs s).2))
    = length (handler_spans (trace s)) + length reqs.
Proof.
  induction reqs as [|[w req] reqs IH]; intros s Hnone.
  - simpl. repeat split; (done || lia).
  - rewrite serve_cons. cbn [first_use fst snd length].
    destruct (uses_backend req) eqn:Hu.
    + rewrite (handle_first_use w req s Hu).
      pose proof (get_backend_first w s Hnone) as Hgb. cbv zeta in Hgb.
      set (s0 := (get_backend w s).2) in *.
      assert (my_backend s0 = Some (length (heap s))) as Hmb0
        by (subst s0; by rewrite Hgb).
      assert (wf s0) as Hwf0
        by (subst s0; apply get_backend_wf; unfold wf; by rewrite Hnone).
      destruct (handle_ready w req s0 _ Hwf0 Hmb0)
        as (Hresp & Hmb1 & Hlen1 & name & new & Htr1 & HF).
      pose proof (handle_ready_wf w req s0 _ Hwf0 Hmb0) as Hwf1.
      destruct (serve_ready reqs _ _ Hwf1 Hmb1) as (Hno & Hwf2 & Hsel & Hsp).
      pose proof (serve_keeps reqs _ _ Hmb1) as [Hmb2 _].
      pose proof (serve_builds_nothing reqs _ _ Hmb1) as Hc2.
      assert (trace s0
              = trace s ++ [EGetenv "BACKEND" "memory";
                            EPrint (getenv w "BACKEND" "memory");
                            EConstruct
                              (kind_of (construct w
                                          (getenv w "BACKEND" "memory")))
                              (length (heap s))]) as Htr0
        by (subst s0; by rewrite Hgb).
      assert (length (heap s0) = S (length (heap s))) as Hlen0.
      { subst s0. rewrite Hgb. simpl. rewrite length_app. simpl. lia. }
      split; [cbv zeta; split; [|split; [|split; [|split]]]|].
      * apply not_elem_of_cons. by split.
      * done.
      * done.
      * rewrite Hc2. unfold constructed. rewrite Hlen1, Hlen0. done.
      * rewrite Hsel, Htr1, Htr0. unfold selector_events.
        rewrite !List.filter_app. simpl. fold (selector_events new).
        rewrite (selector_events_body new HF). by rewrite app_nil_r.
      * rewrite Hsp, Htr1, Htr0. unfold handler_spans.
        rewrite !List.filter_app. simpl. fold (handler_spans new).
        rewrite (handler_spans_body new HF). rewrite !length_app. simpl. lia.
    + destruct req; try discriminate. cbn [handle redirect_to_notes fst snd].
      specialize (IH (log (ESpan "redirect_to_notes") s) Hnone).
      destruct IH as [IH Hsp].
      assert (selector_events (trace (log (ESpan "redirect_to_notes") s))
              = selector_events (trace s)) as Hsel0.
      { unfold selector_events. simpl. rewrite List.filter_app. simpl.
        by rewrite app_nil_r. }
      split.
      * destruct (first_use reqs) as [w1|].
        -- cbv zeta in *. destruct IH as (Hno & Hwf & Hmb & Hc & Hsel).
           split; [apply not_elem_of_cons; by split|].
           split; [done|]. split; [done|]. split; [done|].
           by rewrite Hsel, Hsel0.
        -- destruct IH as (Hresp & Hmb & Hheap & Hsel).
           split; [simpl; by rewrite Hresp|].
           split; [done|]. split; [done|]. by rewrite Hsel, Hsel0.
      * rewrite Hsp. unfold handler_spans. simpl. rewrite List.filter_app.
        simpl. rewrite length_app. simpl. lia.
Qed.
End FirstUse.

(** X3: in a process that serves its requests one after another, a handler
    never runs without a backend: whatever the requests and their
    environments, the dependency hands every handler an object of the heap,
    and the global, once set, keeps pointing at one. *)
Theorem handlers_always_get_a_backend (reqs : list (world * request))
    (s : state) :
  wf s → (NoBackend ∉ (serve reqs s).1) ∧ wf (serve reqs s).2.
Proof.
  intros Hwf. destruct (my_backend s) as [l|] eqn:Hmb.
  - destruct (serve_ready reqs s l Hwf Hmb) as (H1 & H2 & _). done.
  - destruct (serve_unready reqs s Hmb) as [H _].
    destruct (first_use reqs) as [w1|].
    + cbv zeta in H. destruct H as (H1 & H2 & _). done.
    + destruct H as (Hresp & Hnone & _). split.
      * rewrite Hresp. intros Hin. apply elem_of_replicate in Hin as [Hin _].
        discriminate.
      * unfold wf. by rewrite Hnone.
Qed.

Lemma handlers_always_get_a_backend_witness :
  wf initial
  ∧ (NoBackend ∉ (serve (under (world_with (Some "redis"))
                            [GET_root; GET_note "a"; GET_notes]) initial).1).
Proof.
  split; [exact I|].
  apply (handlers_always_get_a_backend
           (under (world_with (Some "redis"))
              [GET_root; GET_note "a"; GET_notes]) initial I).
Defined.

(** X4: in a process that serves its requests one after another, the
    selector is lazy and reads its configuration once, at the first request
    that uses the backend.  A process that has only served GET /
    has answered each with the redirect to /notes, has built no backend and
    has read nothing; otherwise it has built exactly one backend, at
    location 0, of the type named by the environment in force at that first
    request: it read BACKEND once, printed the type once, and the
    environments of all later requests were ignored. *)
Theorem selection_at_first_use (reqs : list (world * request)) :
  match first_use reqs with
  | None =>
      (serve reqs initial).1 = replicate (length reqs) (Redirect "/notes")
      ∧ my_backend (serve reqs initial).2 = None
      ∧ constructed (serve reqs initial).2 = 0
      ∧ selector_events (trace (serve reqs initial).2) = []
  | Some w1 =>
      my_backend (serve reqs initial).2 = Some 0
      ∧ constructed (serve reqs initial).2 = 1
      ∧ selector_events (trace (serve reqs initial).2)
        = [EGetenv "BACKEND" "memory";
           EPrint (getenv w1 "BACKEND" "memory");
           EConstruct
             (kind_of (construct w1 (getenv w1 "BACKEND" "memory"))) 0]
  end.
Proof.
  destruct (serve_unready reqs initial eq_refl) as [H _].
  destruct (first_use reqs) as [w1|].
  - cbv zeta in H. destruct H as (_ & _ & Hmb & Hc & Hsel). done.
  - destruct H as (Hresp & Hmb & Hheap & Hsel).
    split; [done|]. split; [done|]. split; [|done].
    unfold constructed. by rewrite Hheap.
Qed.

(** X5: in a process that serves its requests one after another, every
    request makes exactly one call of start_as_current_span from the
    handlers of main.py, whether its handler returns or raises (the spans
    that the framework's instrumentation adds are not counted). *)
Theorem one_span_per_request (reqs : list (world * request)) (s : state) :
  wf s →
  length (handler_spans (trace (serve reqs s).2))
  = length (handler_spans (trace s)) + length reqs.
Proof.
  intros Hwf. destruct (my_backend s) as [l|] eqn:Hmb.
  - by destruct (serve_ready reqs s l Hwf Hmb) as (_ & _ & _ & H).
  - by destruct (serve_unready reqs s Hmb) as [_ H].
Qed.

Lemma one_span_per_request_witness :
  wf initial
  ∧ length (handler_spans (trace (serve (under (world_with (Some "redis"))
                                   [GET_root; GET_note "a"; GET_notes])
                            initial).2)) = 3.
Proof.
  split; [exact I|].
  apply (one_span_per_request
           (under (world_with (Some "redis"))
              [GET_root; GET_note "a"; GET_notes]) initial I).
Defined.

(* ===================================================================== *)
(** * What racing callers can rely on                                      *)
(* ===================================================================== *)

Section Races.
Implicit Types (w : world) (s : state) (p : pc) (ps : list pc)
  (c : config) (i : nat).

Lemma caller_ok_mono s s' p :
  constructed s ≤ constructed s' →
  (is_Some (my_backend s) → is_Some (my_backend s')) →
  caller_ok s p → caller_ok s' p.
Proof.
  intros Hc Hm. destruct p; simpl; try done.
  - lia.
  - intros (Hs & l & -> & Hl). split; [auto|]. exists l. split; [done | lia].
Qed.

Lemma step_thread_ok w p s :
  wf s → caller_ok s p →
  wf (step_thread w p s).2
  ∧ caller_ok (step_thread w p s).2 (step_thread w p s).1.
Proof.
  intros Hwf Hp. destruct p; simpl in *.
  - destruct (my_backend s) eqn:Hmb; simpl; [by rewrite Hmb | done].
  - done.
  - done.
  - unfold wf, constructed in *. simpl. rewrite length_app. simpl.
    split; [destruct (my_backend s); [lia | done] | lia].
  - unfold wf. simpl. split; [done | eauto].
  - split; [done|]. split; [done|].
    destruct Hp as [l Hl]. exists l. split; [done|].
    unfold wf in Hwf. by rewrite Hl in Hwf.
  - done.
Qed.

Lemma step_ok w c i : callers_ok c → callers_ok (step w c i).
Proof.
  intros [Hwf Hall]. unfold step.
  destruct (c.1 !! i) as [p|] eqn:Hi; [|done].
  pose proof (Forall_lookup_1 _ _ _ _ Hall Hi) as Hp.
  destruct (step_thread_ok w p c.2 Hwf Hp) as [Hwf' Hp'].
  pose proof (step_thread_grows w p c.2) as Hg.
  pose proof (step_thread_keeps_global w p c.2) as Hk.
  destruct (step_thread w p c.2) as [p' s']. simpl in *.
  split; [done|]. simpl. apply Forall_insert; [|done].
  eapply Forall_impl; [exact Hall|]. intros q. by apply caller_ok_mono.
Qed.

Lemma run_ok w schedule : ∀ c, callers_ok c → callers_ok (run w schedule c).
Proof.
  unfold run. induction schedule as [|i schedule IH]; intros c Hc; [done|].
  simpl. apply IH. by apply step_ok.
Qed.

Lemma first_access_ok n : callers_ok (first_access n).
Proof. split; [exact I|]. simpl. by apply Forall_replicate. Qed.
End Races.

(** X6: however the callers of the first access interleave, a caller never
    returns None and never returns a dangling reference: what it returns is
    a backend object that has been constructed. *)
Theorem racing_callers_return_a_backend (w : world) (n : nat)
    (schedule : list nat) (i : nat) (r : option loc) :
  (run w schedule (first_access n)).1 !! i = Some (Returned r) →
  ∃ l b, r = Some l ∧ heap (run w schedule (first_access n)).2 !! l = Some b.
Proof.
  intros Hi.
  destruct (run_ok w schedule _ (first_access_ok n)) as [_ Hall].
  pose proof (Forall_lookup_1 _ _ _ _ Hall Hi) as (_ & l & -> & Hl).
  destruct (lookup_lt_is_Some_2 (heap (run w schedule (first_access n)).2) l)
    as [b Hb]; [exact Hl|]. eauto.
Qed.

Lemma racing_callers_return_a_backend_witness :
  (run (world_with None) racing_schedule (first_access 2)).1 !! 1
  = Some (Returned (Some 1))
  ∧ ∃ l b,
      Some 1 = Some l
      ∧ heap (run (world_with None) racing_schedule (first_access 2)).2 !! l
        = Some b.
Proof.
  split; [reflexivity|].
  apply (racing_callers_return_a_backend (world_with None) 2 racing_schedule
           1 (Some 1)).
  reflexivity.
Defined.

(** X7: a race on the first access does no lasting harm to the selector:
    once all the racing callers have returned, the global is set, and the
    requests served afterwards all get the object it points at and build no
    further backend. *)
Theorem after_the_race_nothing_is_built (w : world) (n : nat)
    (schedule : list nat) (reqs : list (world * request)) :
  1 ≤ n →
  all_returned (run w schedule (first_access n)) = true →
  ∃ l,
    my_backend (run w schedule (first_access n)).2 = Some l
    ∧ my_backend (serve reqs (run w schedule (first_access n)).2).2 = Some l
    ∧ constructed (serve reqs (run w schedule (first_access n)).2).2
      = constructed (run w schedule (first_access n)).2
    ∧ (NoBackend ∉ (serve reqs (run w schedule (first_access n)).2).1).
Proof.
  intros Hn Hall.
  destruct (run_ok w schedule _ (first_access_ok n)) as [Hwf Hok].
  pose proof (run_length w schedule (first_access n)) as Hlen.
  destruct (run w schedule (first_access n)) as [ps s]. simpl in *.
  rewrite length_replicate in Hlen.
  destruct ps as [|p ps]; [simpl in Hlen; lia|].
  apply Forall_cons in Hok as [Hp _].
  unfold all_returned in Hall. simpl in Hall.
  apply andb_true_iff in Hall as [Hret _].
  destruct p; try discriminate. destruct Hp as [[l Hl] _].
  exists l. split; [done|].
  destruct (serve_keeps reqs s l Hl) as [Hmb _].
  destruct (serve_ready reqs s l Hwf Hl) as (Hno & _).
  split; [done|]. split; [by apply (serve_builds_nothing reqs s l)|done].
Qed.

Lemma after_the_race_nothing_is_built_witness :
  1 ≤ 2
  ∧ constructed
      (serve (under (world_with None) [POST_notes "u1" sample_request])
         (run (world_with None) racing_schedule (first_access 2)).2).2
    = 2.
Proof.
  split; [lia|].
  destruct (after_the_race_nothing_is_built (world_with None) 2
              racing_schedule
              (under (world_with None) [POST_notes "u1" sample_request]))
    as (l & _ & _ & Hc & _); [lia | reflexivity |].
  rewrite Hc. reflexivity.
Defined.

(* ===================================================================== *)
(** * Notes across requests                                                *)
(* ===================================================================== *)

Section AcrossRequests.
Implicit Types (w : world) (s : state) (l : loc) (req : request)
  (b : backend) (note_id : string) (note : Note.t).

Lemma update_note_backend b t note_id request :
  (update_note note_id request (b, t)).2.1
  = match set b note_id request with Ok b' => b' | Raise _ => b end.
Proof.
  unfold update_note, bind, emit, call_set.
  by destruct (set b note_id request).
Qed.

Lemma create_note_backend b t uuid4_str request :
  (create_note uuid4_str request (b, t)).2.1
  = match set b uuid4_str request with Ok b' => b' | Raise _ => b end.
Proof.
  unfold create_note, bind, emit, call_set, ret.
  by destruct (set b uuid4_str request).
Qed.

Lemma update_note_result b t note_id request :
  (update_note note_id request (b, t)).1
  = match set b note_id request with Ok _ => Ok tt | Raise e => Raise e end.
Proof.
  unfold update_note, bind, emit, call_set.
  by destruct (set b note_id request).
Qed.

Lemma create_note_result b t uuid4_str request :
  (create_note uuid4_str request (b, t)).1
  = match set b uuid4_str request with
    | Ok _ => Ok uuid4_str
    | Raise e => Raise e
    end.
Proof.
  unfold create_note, bind, emit, call_set, ret.
  by destruct (set b uuid4_str request).
Qed.

(** The state after a handler body has run against the object at [l]. *)
Lemma depends_at {A} w (body : Handler backend A) reply s l b :
  my_backend s = Some l → heap s !! l = Some b →
  depends w body reply s
  = (match (body (b, trace s)).1 with
     | Ok a => reply a
     | Raise e => Failed e
     end,
     State (Some l) (<[l := (body (b, trace s)).2.1]> (heap s))
           (body (b, trace s)).2.2).
Proof.
  intros Hl Hb. unfold depends. rewrite (get_backend_cached w s l Hl).
  cbv beta iota. rewrite Hb, Hl.
  by destruct (body (b, trace s)) as [res [b' t']].
Qed.

Lemma stored_after {A} w (body : Handler backend A) reply s l b note_id note :
  my_backend s = Some l → heap s !! l = Some b →
  get (body (b, trace s)).2.1 note_id = Ok note →
  stored (depends w body reply s).2 note_id note.
Proof.
  intros Hl Hb Hget. rewrite (depends_at w body reply s l b Hl Hb).
  exists l, (body (b, trace s)).2.1. simpl. split; [done|]. split; [|done].
  apply list_lookup_insert_eq. by eapply lookup_lt_Some.
Qed.

Lemma set_other_keeps b note_id other request note :
  other ≠ note_id → get b note_id = Ok note →
  get (match set b other request with Ok b' => b' | Raise _ => b end) note_id
  = Ok note.
Proof.
  intros Hne Hget. destruct (set b other request) as [b'|e] eqn:Hset.
  - by rewrite (get_after_other_set b b' note_id other request Hne Hset).
  - done.
Qed.

Lemma handle_keeps_stored w req s note_id note :
  writes note_id req = false →
  stored s note_id note → stored (handle w req s).2 note_id note.
Proof.
  intros Hw (l & b & Hl & Hb & Hget). destruct req; simpl in *.
  - exists l, b. done.
  - eapply stored_after; [done..|]. by rewrite read_only_get_notes.
  - eapply stored_after; [done..|]. by rewrite read_only_get_note.
  - eapply stored_after; [done..|]. rewrite update_note_backend.
    apply set_other_keeps; [|done]. unfold writes in Hw. simpl in Hw.
    by apply String.eqb_neq.
  - eapply stored_after; [done..|]. rewrite create_note_backend.
    apply set_other_keeps; [|done]. unfold writes in Hw. simpl in Hw.
    by apply String.eqb_neq.
Qed.

Lemma serve_keeps_stored reqs : ∀ s note_id note,
  Forall (λ wr, writes note_id wr.2 = false) reqs →
  stored s note_id note → stored (serve reqs s).2 note_id note.
Proof.
  induction reqs as [|[w req] reqs IH]; intros s note_id note HF Hst;
    [done|].
  apply Forall_cons in HF as [Hw HF]. rewrite serve_cons. simpl.
  apply IH; [done|]. by apply handle_keeps_stored.
Qed.

Lemma handle_write_stores w req s note_id body :
  target req = Some (note_id, body) →
  succeeded (handle w req s).1 = true →
  stored (handle w req s).2 note_id
    (Note.mk note_id (CreateNoteRequest.title body)
             (CreateNoteRequest.content body)).
Proof.
  intros Ht Hs.
  assert (uses_backend req = true) as Hu by (by destruct req).
  rewrite (handle_first_use w req s Hu) in *.
  destruct (get_backend_some w s) as (l & Hl & _).
  set (s0 := (get_backend w s).2) in *.
  destruct (heap s0 !! l) as [b|] eqn:Hb.
  - destruct req; simplify_eq/=.
    + rewrite (depends_at w _ _ s0 l b Hl Hb) in Hs. simpl in Hs.
      rewrite update_note_result in Hs.
      eapply stored_after; [done..|]. rewrite update_note_backend.
      destruct (set b note_id body) as [b'|e] eqn:Hset; [|done].
      by apply (get_after_set b b').
    + rewrite (depends_at w _ _ s0 l b Hl Hb) in Hs. simpl in Hs.
      rewrite create_note_result in Hs.
      eapply stored_after; [done..|]. rewrite create_note_backend.
      destruct (set b note_id body) as [b'|e] eqn:Hset; [|done].
      by apply (get_after_set b b').
  - exfalso. destruct req; simplify_eq/=; unfold depends in Hs;
      rewrite (get_backend_cached w s0 l Hl) in Hs; cbv beta iota in Hs;
      rewrite Hb in Hs; discriminate.
Qed.

Lemma get_Ok_listed b note_id note :
  get b note_id = Ok note → ∃ ks, keys b = Ok ks ∧ note_id ∈ ks.
Proof.
  destruct b as [[st]|[[re en]]|[[re en]]]; simpl;
    unfold Service.read, Service.scan; simpl.
  - destruct (st !! note_id) as [n|] eqn:Hn; [|discriminate]. intros _.
    eexists. split; [done|]. apply list_elem_of_fmap.
    exists (note_id, n). split; [done|]. by apply elem_of_map_to_list.
  - destruct re; [|discriminate].
    destruct (en !! note_id) as [n|] eqn:Hn; [|discriminate]. intros _.
    eexists. split; [done|]. apply list_elem_of_fmap.
    exists (note_id, n). split; [done|]. by apply elem_of_map_to_list.
  - destruct re; [|discriminate].
    destruct (en !! note_id) as [n|] eqn:Hn; [|discriminate]. intros _.
    eexists. split; [done|]. apply list_elem_of_fmap.
    exists (note_id, n). split; [done|]. by apply elem_of_map_to_list.
Qed.

Lemma stored_is_read w s note_id note :
  stored s note_id note → (handle w (GET_note note_id) s).1 = OneNote note.
Proof.
  intros (l & b & Hl & Hb & Hget). cbn [handle].
  rewrite (depends_at w _ _ s l b Hl Hb). cbn [fst].
  rewrite get_note_is_get. cbn [fst]. by rewrite Hget.
Qed.

Lemma stored_is_listed w s note_id note :
  stored s note_id note →
  ∃ notes, (handle w GET_notes s).1 = NoteList notes ∧ note ∈ notes.
Proof.
  intros (l & b & Hl & Hb & Hget). cbn [handle].
  rewrite (depends_at w _ _ s l b Hl Hb). cbn [fst].
  destruct (get_Ok_listed b note_id note Hget) as (ks & Hks & Hin).
  destruct (fetched_exists b ks (keys_have_notes b ks Hks)) as [ns Hf].
  rewrite (get_notes_returns b (trace s) ks ns Hks Hf). cbn [fst].
  exists ns. split; [done|].
  apply list_elem_of_lookup in Hin as [i Hi].
  destruct (Forall2_lookup_l _ _ _ _ _ Hf Hi) as (n & Hn & Hgn).
  rewrite Hget in Hgn. simplify_eq. by eapply list_elem_of_lookup_2.
Qed.
End AcrossRequests.

(** X8: in a process that serves its requests one after another, a note
    written by PUT /notes/{id} or POST /notes stays readable: once such a
    request has succeeded, and after any further requests that do not write
    the same key, under any environments, GET /notes/{id} returns the note
    with the written title and content, and GET /notes lists it; no route
    deletes a note.  The backends are the modelled ones: a service that has
    answered keeps answering and keeps its entries. *)
Theorem written_note_stays_readable (w w' : world) (req : request)
    (s : state) (note_id : string) (body : CreateNoteRequest.t)
    (reqs : list (world * request)) :
  target req = Some (note_id, body) →
  succeeded (handle w req s).1 = true →
  Forall (λ wr, writes note_id wr.2 = false) reqs →
  let note := Note.mk note_id (CreateNoteRequest.title body)
                (CreateNoteRequest.content body) in
  let s' := (serve reqs (handle w req s).2).2 in
  (handle w' (GET_note note_id) s').1 = OneNote note
  ∧ ∃ notes, (handle w' GET_notes s').1 = NoteList notes ∧ note ∈ notes.
Proof.
  intros Ht Hs HF note s'.
  assert (stored s' note_id note) as Hst.
  { apply serve_keeps_stored; [done|]. by apply handle_write_stores. }
  split; [by apply stored_is_read | by apply (stored_is_listed w' s' note_id)].
Qed.

Lemma written_note_stays_readable_witness :
  (handle (world_with None) (GET_note "u1")
     (serve (under (world_with None) [PUT_note "b" other_request; GET_notes])
        (handle (world_with None) (POST_notes "u1" sample_request)
           initial).2).2).1
  = OneNote (Note.mk "u1" "groceries" "milk, eggs").
Proof.
  apply (written_note_stays_readable (world_with None) (world_with None)
           (POST_notes "u1" sample_request) initial "u1" sample_request
           (under (world_with None) [PUT_note "b" other_request; GET_notes])
           eq_refl eq_refl).
  repeat constructor.
Defined.
